(** * grolt console: a shallow embedding of [grolt/console.py]

    The console is a read-eval loop over a [Service].  Everything it does
    to the outside world (container calls, the routing connector, the
    service's topology methods, [click.echo]) is recorded in a trace, and
    what the collaborators answer is a parameter of the development. *)

From Stdlib Require Import List String Ascii Bool Arith NArith Lia PrimFloat DecimalString.
Import ListNotations.
Open Scope string_scope.
Open Scope list_scope.

(** ** Data model *)

(** [spec.debug_opts], of which the console reads only [port]. *)
Record DebugOpts := { port : N }.

(** A machine specification, with the attributes the console reads. *)
Record MachineSpec := {
  name : string;
  fq_name : string;
  config : list (string * string);
  bolt_port : N;
  http_port : N;
  http_uri : string;
  debug_opts : DebugOpts
}.

Record Container := { short_id : string }.

(** A live machine: [m.spec], [m.container]. *)
Record Machine := {
  spec : MachineSpec;
  container : Container
}.

(** [service.machines]: a Python dict from spec to machine-or-[None], kept
    in insertion order.  Keys are specs (never [None] at this type). *)
Definition machine_dict := list (MachineSpec * option Machine).

Definition DebugOpts_eq_dec (a b : DebugOpts) : {a = b} + {a <> b}.
Proof. decide equality. apply N.eq_dec. Defined.

Definition MachineSpec_eq_dec (a b : MachineSpec) : {a = b} + {a <> b}.
Proof.
  decide equality;
    try apply DebugOpts_eq_dec; try apply N.eq_dec; try apply string_dec.
  apply list_eq_dec. decide equality; apply string_dec.
Defined.

(** [list(d)]: the keys, in insertion order. *)
Definition dict_keys (d : machine_dict) : list MachineSpec := map fst d.

(** [d[k]]: [None] stands for [KeyError]. *)
Fixpoint dict_get (d : machine_dict) (k : MachineSpec) : option (option Machine) :=
  match d with
  | [] => None
  | (k', v) :: rest => if MachineSpec_eq_dec k k' then Some v else dict_get rest k
  end.

(** [cfg.get(key, default)] on a string-to-string mapping. *)
Fixpoint config_get (cfg : list (string * string)) (key default : string) : string :=
  match cfg with
  | [] => default
  | (k, v) :: rest => if (k =? key)%string then v else config_get rest key default
  end.

(** ** Exceptions *)

Inductive exn :=
| BadParameter (message : string)   (* click.BadParameter: a ClickException *)
| UsageError (message : string)     (* any other click.UsageError *)
| ClickExit                         (* click.exceptions.Exit *)
| SystemExit                        (* SystemExit(), no code *)
| IndexError
| KeyError
| AttributeError
| TypeError
| EOFError
| ValueError (message : string)
| CollaboratorError (what : string). (* any other failure of a collaborator *)

(** [isinstance(e, ClickException)]. *)
Definition is_ClickException (e : exn) : bool :=
  match e with
  | BadParameter _ | UsageError _ => true
  | _ => false
  end.

(** [isinstance(e, click.exceptions.Exit)]. *)
Definition is_ClickExit (e : exn) : bool :=
  match e with
  | ClickExit => true
  | _ => false
  end.

(** [error.format_message()]: a [BadParameter] raised with neither a
    parameter nor a hint is prefixed; a usage error is its message. *)
Definition format_message (e : exn) : string :=
  match e with
  | BadParameter m => "Invalid value: " ++ m
  | UsageError m => m
  | _ => ""
  end.

(** The status the interpreter exits with when [e] reaches top level. *)
Definition exit_code (e : exn) : N :=
  match e with
  | SystemExit => 0
  | _ => 1
  end.

(** ** Collaborators and the world *)

(** Calls the console makes on its collaborators. *)
Inductive call :=
| CPing (m : Machine) (timeout : N)     (* m.ping(timeout=..) *)
| CPause (m : Machine)                  (* m.container.pause() *)
| CUnpause (m : Machine)                (* m.container.unpause() *)
| CLogs (m : Machine)                   (* m.container.logs() *)
| CSleep (seconds : float)              (* time.sleep(..) *)
| COpenBrowser (uri : string)           (* webbrowser.open(..) *)
| CEnv                                  (* service.env() *)
| CRouters                              (* service.routers() *)
| CConnect (profile : string)           (* Connector(ServiceProfile(.., routing=True)) *)
| CRefresh (gdb : option string)        (* cx.refresh_routing_table(gdb) *)
| CRunners                              (* rt.runners() *)
| CGetRouterProfiles                    (* cx.get_router_profiles() *)
| CClose                                (* cx.close() *)
| CAddCore                              (* service.add_core() *)
| CAddReplica                           (* service.add_replica() *)
| CRemove (machine : string)            (* service.remove(..) *)
| CReboot (machine : string).           (* service.reboot(..) *)

(** What a call gives back. *)
Inductive reply :=
| RNone
| RBool (b : bool)
| RText (s : string)
| RProfiles (ps : list string)
| RRunners (ro rw : list string)
| REnv (kvs : list (string * string))
| RRaise (e : exn).

(** Observable events, oldest first. [Echo err text] is one
    [click.echo(text, err=err)]; [EchoNoNl] is the prompt's [nl=False]. *)
Inductive event :=
| Called (c : call)
| Echo (err : bool) (text : string)
| EchoNoNl (text : string).

Record World := {
  service_name : string;        (* service.name *)
  machines : machine_dict;      (* service.machines *)
  args : option (list string);  (* console.args *)
  trace : list event
}.

Definition log (e : event) (w : World) : World :=
  {| service_name := service_name w; machines := machines w; args := args w;
     trace := trace w ++ [e] |}.

Definition set_machines (d : machine_dict) (w : World) : World :=
  {| service_name := service_name w; machines := d; args := args w;
     trace := trace w |}.

Definition set_args (a : list string) (w : World) : World :=
  {| service_name := service_name w; machines := machines w; args := Some a;
     trace := trace w |}.

(** How the outside answers: the reply to a call given the history, and
    the service's mapping after the call. *)
Record Collaborators := {
  respond : list event -> call -> reply;
  topology : list event -> call -> machine_dict -> machine_dict
}.

(** ** A state-and-exception monad over the world *)

Inductive outcome (A : Type) :=
| Ok (a : A) (w : World)
| Raise (e : exn) (w : World).
Arguments Ok {A} a w.
Arguments Raise {A} e w.

Definition M (A : Type) := World -> outcome A.

Definition ret {A} (a : A) : M A := fun w => Ok a w.
Definition raise {A} (e : exn) : M A := fun w => Raise e w.
Definition bind {A B} (m : M A) (k : A -> M B) : M B :=
  fun w => match m w with
           | Ok a w' => k a w'
           | Raise e w' => Raise e w'
           end.

Declare Scope console_scope.
Delimit Scope console_scope with console.
Notation "x <- m ;; k" := (bind m (fun x => k))
  (at level 61, m at next level, right associativity) : console_scope.
Notation "m ;;; k" := (bind m (fun _ => k))
  (at level 61, right associativity) : console_scope.
Open Scope console_scope.

(** [click.echo(text)] and [click.echo(text, err=True)]. *)
Definition echo (text : string) : M unit := fun w => Ok tt (log (Echo false text) w).
Definition echo_err (text : string) : M unit := fun w => Ok tt (log (Echo true text) w).

(** The final world of an outcome. *)
Definition world_of {A} (o : outcome A) : World :=
  match o with
  | Ok _ w => w
  | Raise _ w => w
  end.

(** [for x in xs: f(x)]. *)
Fixpoint for_each {X} (f : X -> M unit) (xs : list X) : M unit :=
  match xs with
  | [] => ret tt
  | x :: rest => f x ;;; for_each f rest
  end.

(** ** Text helpers *)

(** The double-quote character, as a string. *)
Definition dquote : string := String "034" "".

(** [str(n)] for a non-negative integer. *)
Definition str_N (n : N) : string := NilEmpty.string_of_uint (N.to_uint n).

Fixpoint spaces (n : nat) : string :=
  match n with
  | 0 => ""
  | S k => String " " (spaces k)
  end.

(** Strings hold text in UTF-8.  A byte of the form 10xxxxxx continues
    a character; every other byte starts one. *)
Definition is_continuation (c : ascii) : bool :=
  match c with
  | Ascii _ _ _ _ _ _ b6 b7 => b7 && negb b6
  end.

(** [len(s)]: the number of characters (code points), not of bytes. *)
Fixpoint py_len (s : string) : nat :=
  match s with
  | "" => 0
  | String c rest => if is_continuation c then py_len rest else S (py_len rest)
  end.

(** The format spec [{:<width}]: left-justified, padded with spaces up to
    [width] characters, never cut. *)
Definition ljust (width : nat) (s : string) : string :=
  s ++ spaces (width - py_len s).

(** [sep.join(xs)]. *)
Fixpoint join (sep : string) (xs : list string) : string :=
  match xs with
  | [] => ""
  | [x] => x
  | x :: rest => x ++ sep ++ join sep rest
  end.

(** [sorted(xs)] for strings: a stable insertion sort. *)
Fixpoint insert_sorted (x : string) (xs : list string) : list string :=
  match xs with
  | [] => [x]
  | y :: rest => if String.leb x y then x :: xs else y :: insert_sorted x rest
  end.

Definition sorted (xs : list string) : list string :=
  fold_right insert_sorted [] xs.

(** Tuple order on [(key, value)] pairs. *)
Definition pair_leb (a b : string * string) : bool :=
  match String.compare (fst a) (fst b) with
  | Lt => true
  | Eq => String.leb (snd a) (snd b)
  | Gt => false
  end.

Fixpoint insert_item (x : string * string) (xs : list (string * string)) :=
  match xs with
  | [] => [x]
  | y :: rest => if pair_leb x y then x :: xs else y :: insert_item x rest
  end.

Definition sorted_items (xs : list (string * string)) : list (string * string) :=
  fold_right insert_item [] xs.

(** ** [shlex.split], POSIX mode

    The tokenizer of the standard library as [shlex.split(text)] sets it
    up: POSIX rules, [whitespace_split] on, no comment characters. *)

Definition is_whitespace (c : ascii) : bool :=
  (c =? " ")%char || (c =? "009")%char || (c =? "013")%char || (c =? "010")%char.

Definition is_quote (c : ascii) : bool :=
  (c =? "'")%char || (c =? "034")%char.

Definition is_escape (c : ascii) : bool := (c =? "\")%char.

(** The lexer's [state]; an escape remembers the state it returns to
    ([None] for a bare word, [Some q] inside the quotes [q]). *)
Inductive lex_state :=
| InWhitespace
| InWord
| InQuotes (q : ascii)
| InEscape (escapedstate : option ascii).

Definition add_char (tok : string) (c : ascii) : string := tok ++ String c "".

Fixpoint read_tokens (cs : list ascii) (st : lex_state) (tok : string)
    (quoted : bool) (acc : list string) : exn + list string :=
  match cs with
  | [] =>
      match st with
      | InWhitespace => inr acc
      | InWord => if negb (tok =? "")%string || quoted then inr (acc ++ [tok]) else inr acc
      | InQuotes _ => inl (ValueError "No closing quotation")
      | InEscape _ => inl (ValueError "No escaped character")
      end
  | c :: rest =>
      match st with
      | InWhitespace =>
          if is_whitespace c then read_tokens rest InWhitespace "" false acc
          else if is_escape c then read_tokens rest (InEscape None) "" false acc
          else if is_quote c then read_tokens rest (InQuotes c) "" true acc
          else read_tokens rest InWord (String c "") false acc
      | InWord =>
          if is_whitespace c then
            if negb (tok =? "")%string || quoted
            then read_tokens rest InWhitespace "" false (acc ++ [tok])
            else read_tokens rest InWhitespace tok quoted acc
          else if is_quote c then read_tokens rest (InQuotes c) tok true acc
          else if is_escape c then read_tokens rest (InEscape None) tok quoted acc
          else read_tokens rest InWord (add_char tok c) quoted acc
      | InQuotes q =>
          if (c =? q)%char then read_tokens rest InWord tok true acc
          else if is_escape c && (q =? "034")%char
               then read_tokens rest (InEscape (Some q)) tok true acc
          else read_tokens rest (InQuotes q) (add_char tok c) true acc
      | InEscape None =>
          read_tokens rest InWord (add_char tok c) quoted acc
      | InEscape (Some q) =>
          if negb (is_escape c) && negb (c =? q)%char
          then read_tokens rest (InQuotes q) (add_char (add_char tok "\") c) quoted acc
          else read_tokens rest (InQuotes q) (add_char tok c) quoted acc
      end
  end.

Definition shlex_split (text : string) : exn + list string :=
  read_tokens (list_ascii_of_string text) InWhitespace "" false [].

(** A line made of the characters the tokenizer takes for whitespace
    (space, tab, carriage return, line feed) only; stripped, such a line
    is empty. *)
Definition blank (text : string) : bool :=
  forallb is_whitespace (list_ascii_of_string text).

(** ** Commands *)

Inductive console_class := Neo4jConsole | Neo4jClusterConsole.

(** The [click.Command] attributes of the two classes. *)
Inductive command :=
| cmd_browser | cmd_env | cmd_exit | cmd_help | cmd_ls | cmd_ping
| cmd_rt | cmd_logs | cmd_pause
| cmd_add | cmd_rm | cmd_reboot.

(** The attribute name a command is bound to. *)
Definition command_name (c : command) : string :=
  match c with
  | cmd_browser => "browser" | cmd_env => "env" | cmd_exit => "exit"
  | cmd_help => "help" | cmd_ls => "ls" | cmd_ping => "ping"
  | cmd_rt => "rt" | cmd_logs => "logs" | cmd_pause => "pause"
  | cmd_add => "add" | cmd_rm => "rm" | cmd_reboot => "reboot"
  end.

(** The commands [getmembers] finds on an instance, by name. *)
Definition members (cls : console_class) : list command :=
  match cls with
  | Neo4jConsole =>
      [cmd_browser; cmd_env; cmd_exit; cmd_help; cmd_logs; cmd_ls;
       cmd_pause; cmd_ping; cmd_rt]
  | Neo4jClusterConsole =>
      [cmd_add; cmd_browser; cmd_env; cmd_exit; cmd_help; cmd_logs; cmd_ls;
       cmd_pause; cmd_ping; cmd_reboot; cmd_rm; cmd_rt]
  end.

(** Attributes of the instance that are not commands: the others the
    classes define.  (What [object] provides behaves the same in
    [__getitem__]: found, and not a command.) *)
Definition other_attributes : list string :=
  ["args"; "service"; "prompt"; "run"; "invoke"; "_iter_machines";
   "_for_each_machine"; "__init__"; "__iter__"; "__getitem__"].

Inductive attribute := AttrCommand (c : command) | AttrOther.

(** [getattr(self, name)]; [None] is [AttributeError]. *)
Definition getattr (cls : console_class) (nm : string) : option attribute :=
  match find (fun c => (command_name c =? nm)%string) (members cls) with
  | Some c => Some (AttrCommand c)
  | None =>
      if existsb (String.eqb nm) other_attributes then Some AttrOther else None
  end.

(** The values a bound context passes to each command's body. *)
Definition params (c : command) : Type :=
  match c with
  | cmd_browser | cmd_ping | cmd_logs => option string  (* machine, optional *)
  | cmd_env | cmd_exit => unit
  | cmd_help => option string                           (* command, optional *)
  | cmd_ls => bool                                      (* refresh flag *)
  | cmd_rt => option string                             (* gdb, optional *)
  | cmd_pause => (float * option string)%type           (* time, machine *)
  | cmd_add | cmd_rm | cmd_reboot => string             (* mode / machine *)
  end.

(** What click's parser makes of the raw arguments of a command: the
    bound values, the eager [--help] (help text printed, then [Exit]), or
    a usage error with its formatted message. *)
Inductive parse_result (A : Type) :=
| Parsed (p : A)
| ShowHelp (text : string)
| Rejected (message : string).
Arguments Parsed {A} p.
Arguments ShowHelp {A} text.
Arguments Rejected {A} message.

(** The library functions the console relies on. *)
Record Library := {
  repr_str : string -> string;                 (* repr(s) *)
  str_float : float -> string;                 (* str(x) *)
  style : option string -> string -> string;   (* click.style(text, fg=..) *)
  click_parse : forall c : command, list string -> parse_result (params c);
  get_help : command -> string -> string;      (* f.get_help(ctx) *)
  get_short_help_str : command -> nat -> string
}.

(** [try: m except ...: handler]. *)
Definition try_except {A} (m : M A) (handler : exn -> M A) : M A :=
  fun w => match m w with
           | Ok a w' => Ok a w'
           | Raise e w' => handler e w'
           end.

(** [x in (a, b, ...)] on strings. *)
Definition in_tuple (x : string) (xs : list string) : bool :=
  existsb (String.eqb x) xs.

Section Console.

Variable collab : Collaborators.
Variable lib : Library.

(** The world once a call has been made: the call is in the trace and
    the service's mapping is what the call left. *)
Definition after_call (c : call) (w : World) : World :=
  log (Called c) (set_machines (topology collab (trace w) c (machines w)) w).

(** One call on a collaborator: its reply is returned, or raised. *)
Definition ext (c : call) : M reply :=
  fun w =>
    match respond collab (trace w) c with
    | RRaise e => Raise e (after_call c w)
    | r => Ok r (after_call c w)
    end.

(** A call made for its effect only. *)
Definition ext_ (c : call) : M unit := ext c ;;; ret tt.

(** Replies read at the type the console expects of them. *)
Definition as_text (r : reply) : M string :=
  match r with RText s => ret s | _ => raise TypeError end.

Definition as_profiles (r : reply) : M (list string) :=
  match r with RProfiles ps => ret ps | _ => raise TypeError end.

Definition as_runners (r : reply) : M (list string * list string) :=
  match r with RRunners ro rw => ret (ro, rw) | _ => raise TypeError end.

Definition as_env (r : reply) : M (list (string * string)) :=
  match r with REnv kvs => ret kvs | _ => raise TypeError end.

(** Truth value of a reply, as [if not x] reads it. *)
Definition truthy (r : reply) : bool :=
  match r with
  | RNone => false
  | RBool b => b
  | RText s => negb (s =? "")%string
  | RProfiles ps => negb (List.length ps =? 0)%nat
  | RRunners _ _ => true
  | REnv kvs => negb (List.length kvs =? 0)%nat
  | RRaise _ => false
  end.

(** ** Target resolution *)

(** [if not name: name = "a"]. *)
Definition default_name (nm : option string) : string :=
  match nm with
  | None => "a"
  | Some "" => "a"
  | Some s => s
  end.

(** [name in (spec.name, spec.fq_name)]. *)
Definition matches (nm : string) (s : MachineSpec) : bool :=
  (nm =? name s)%string || (nm =? fq_name s)%string.

(** [self.service.machines[spec]]. *)
Definition getitem_machines (s : MachineSpec) : M (option Machine) :=
  fun w => match dict_get (machines w) s with
           | Some v => Ok v w
           | None => Raise KeyError w
           end.

(** The body of the generator, run against its consumer: for each spec of
    the snapshot that matches, the machine is looked up (in the mapping as
    it is then), handed to the consumer, and the loop goes on. *)
Fixpoint iter_specs {A} (nm : string) (specs : list MachineSpec)
    (body : option Machine -> A -> M A) (acc : A) : M A :=
  match specs with
  | [] => ret acc
  | s :: rest =>
      if matches nm s then
        m <- getitem_machines s ;;
        acc' <- body m acc ;;
        iter_specs nm rest body acc'
      else iter_specs nm rest body acc
  end.

(** [for m in self._iter_machines(name): acc = body(m, acc)].  The snapshot
    [list(self.service.machines)] is taken when the loop starts. *)
Definition _iter_machines {A} (nm : option string)
    (body : option Machine -> A -> M A) (acc : A) : M A :=
  fun w => iter_specs (default_name nm) (dict_keys (machines w)) body acc w.

Definition _for_each_machine (nm : option string) (f : option Machine -> M unit) : M nat :=
  _iter_machines nm (fun m found => f m ;;; ret (found + 1)) 0.

(** [list(self._iter_machines(name))]: the generator drained at once. *)
Definition resolve (nm : option string) : M (list (option Machine)) :=
  _iter_machines nm (fun m acc => ret (acc ++ [m])) [].

(** ** Registry *)

(** [iter(self)]: the names of the command attributes. *)
Definition __iter__ (cls : console_class) : list string :=
  map command_name (members cls).

Definition no_such_command (nm : string) : exn :=
  BadParameter ("No such command " ++ dquote ++ nm ++ dquote ++ ".").

(** [self[name]]. *)
Definition __getitem__ (cls : console_class) (nm : string) : M command :=
  match getattr cls nm with
  | None => raise (no_such_command nm)
  | Some (AttrCommand f) => ret f
  | Some AttrOther => raise (no_such_command nm)
  end.

(** [f.make_context(info_name, args, obj=self)]. *)
Definition make_context (f : command) (info_name : string) (raw : list string)
    : M (params f) :=
  match click_parse lib f raw with
  | Parsed p => ret p
  | ShowHelp text => echo text ;;; raise ClickExit
  | Rejected message => raise (UsageError message)
  end.

(** ** Command bodies *)

(** [repr(machine)] where [machine] may be [None]. *)
Definition repr_opt (machine : option string) : string :=
  match machine with
  | None => "None"
  | Some s => repr_str lib s
  end.

(** [BadParameter("Machine {!r} not found".format(machine))]. *)
Definition not_found (machine : string) : exn :=
  BadParameter ("Machine " ++ machine ++ " not found").

Definition browser (machine : option string) : M unit :=
  let f (m : option Machine) : M unit :=
    match m with
    | None => raise AttributeError
    | Some m =>
        echo ("Opening web browser for machine " ++ repr_str lib (fq_name (spec m))
              ++ " at «" ++ http_uri (spec m) ++ "»") ;;;
        ext_ (COpenBrowser (http_uri (spec m)))
    end in
  found <- _for_each_machine machine f ;;
  if (found =? 0)%nat then raise (not_found (repr_opt machine)) else ret tt.

Definition env : M unit :=
  r <- ext CEnv ;;
  items <- as_env r ;;
  for_each (fun kv => echo (fst kv ++ "=" ++ repr_str lib (snd kv)))
           (sorted_items items).

Definition exit : M unit := raise SystemExit.

Definition help (cls : console_class) (command : option string) : M unit :=
  match command with
  | Some (String _ _ as nm) =>
      f <- __getitem__ cls nm ;;
      _ <- make_context cmd_help nm [] ;;
      echo (get_help lib f nm)
  | _ =>
      echo "Commands:" ;;;
      let command_width := list_max (map String.length (__iter__ cls)) in
      let text_width := 73 - command_width in
      for_each (fun arg0 =>
                  f <- __getitem__ cls arg0 ;;
                  echo ("  " ++ ljust command_width arg0 ++ "   "
                        ++ get_short_help_str lib f text_width))
               (sorted (__iter__ cls))
  end.

Definition ls_header : string :=
  "NAME        CONTAINER   MODE           BOLT PORT   HTTP PORT   DEBUG PORT".

(** One line of the table. *)
Definition ls_row (s : MachineSpec) (m : Machine) : string :=
  ljust 12 (fq_name s)
  ++ ljust 12 (short_id (container m))
  ++ ljust 15 (config_get (config s) "dbms.mode" "SINGLE")
  ++ ljust 12 (str_N (bolt_port s))
  ++ ljust 12 (str_N (http_port s))
  ++ str_N (port (debug_opts s)).

Definition ls (refresh : bool) : M unit :=
  echo ls_header ;;;
  fun w =>
    for_each (fun item : MachineSpec * option Machine =>
                match snd item with
                | None => ret tt
                | Some machine => echo (ls_row (fst item) machine)
                end)
             (machines w) w.

Definition ping (machine : option string) : M unit :=
  let f (m : option Machine) : M unit :=
    match m with
    | None => raise AttributeError
    | Some m => ext_ (CPing m 0)
    end in
  found <- _for_each_machine machine f ;;
  if (found =? 0)%nat then raise (not_found (repr_opt machine)) else ret tt.

Definition rt (gdb : option string) : M unit :=
  r <- ext CRouters ;;
  routers <- as_profiles r ;;
  match routers with
  | [] => raise IndexError
  | profile :: _ =>
      ext_ (CConnect profile) ;;;
      match gdb with
      | None => echo "Refreshing routing information for the default graph database..."
      | Some g => echo ("Refreshing routing information for graph database "
                        ++ repr_str lib g ++ "...")
      end ;;;
      ext_ (CRefresh gdb) ;;;
      r <- ext CRunners ;;
      runners <- as_runners r ;;
      r <- ext CGetRouterProfiles ;;
      router_profiles <- as_profiles r ;;
      echo ("Routers: " ++ join " " router_profiles) ;;;
      echo ("Readers: " ++ join " " (fst runners)) ;;;
      echo ("Writers: " ++ join " " (snd runners)) ;;;
      ext_ CClose
  end.

Definition logs (machine : option string) : M unit :=
  let f (m : option Machine) : M unit :=
    match m with
    | None => raise AttributeError
    | Some m => r <- ext (CLogs m) ;; text <- as_text r ;; echo text
    end in
  found <- _for_each_machine machine f ;;
  if (found =? 0)%nat then raise (not_found (repr_opt machine)) else ret tt.

(** The per-machine action of [pause]. *)
Definition pause_f (time : float) (m : option Machine) : M unit :=
  match m with
  | None => raise AttributeError
  | Some m =>
      echo ("Pausing machine " ++ repr_str lib (fq_name (spec m)) ++ " for "
            ++ str_float lib time ++ "s") ;;;
      ext_ (CPause m) ;;;
      ext_ (CSleep time) ;;;
      ext_ (CUnpause m) ;;;
      ext_ (CPing m 0)
  end.

Definition pause (time : float) (machine : option string) : M unit :=
  found <- _for_each_machine machine (pause_f time) ;;
  if (found =? 0)%nat then raise (not_found (repr_opt machine)) else ret tt.

Definition invalid_mode : exn :=
  BadParameter ("Invalid value for " ++ dquote ++ "MODE" ++ dquote
                ++ ", choose from " ++ dquote ++ "core" ++ dquote
                ++ " or " ++ dquote ++ "read-replica" ++ dquote).

Definition add (mode : string) : M unit :=
  if in_tuple mode ["c"; "core"] then ext_ CAddCore
  else if in_tuple mode ["r"; "rr"; "replica"; "read-replica"; "read_replica"]
  then ext_ CAddReplica
  else raise invalid_mode.

Definition rm (machine : string) : M unit :=
  r <- ext (CRemove machine) ;;
  if truthy r then ret tt else raise (not_found (repr_str lib machine)).

Definition reboot (machine : string) : M unit :=
  r <- ext (CReboot machine) ;;
  if truthy r then ret tt else raise (not_found (repr_str lib machine)).

(** ** Invocation *)

(** [f.invoke(ctx)]: the callback applied to the bound values. *)
Definition callback (cls : console_class) (f : command) : params f -> M unit :=
  match f with
  | cmd_browser => browser
  | cmd_env => fun _ => env
  | cmd_exit => fun _ => exit
  | cmd_help => help cls
  | cmd_ls => ls
  | cmd_ping => ping
  | cmd_rt => rt
  | cmd_logs => logs
  | cmd_pause => fun p => pause (fst p) (snd p)
  | cmd_add => add
  | cmd_rm => rm
  | cmd_reboot => reboot
  end.

(** The guarded block of [invoke]. *)
Definition invoke_body (cls : console_class) (argv : list string) : M unit :=
  match argv with
  | [] => raise IndexError
  | arg0 :: rest =>
      f <- __getitem__ cls arg0 ;;
      ctx <- make_context f arg0 rest ;;
      callback cls f ctx
  end.

(** The two [except] clauses of [invoke], in order. *)
Definition invoke_handler (e : exn) : M unit :=
  if is_ClickExit e then ret tt
  else if is_ClickException e then echo_err (format_message e)
  else raise e.

Definition invoke (cls : console_class) (argv : list string) : M unit :=
  try_except (invoke_body cls argv) invoke_handler.

(** ** The read-eval loop *)

(** [self.prompt()]; [line] is what [input] finds: a line, or end of
    input. *)
Definition prompt (line : option string) : M string :=
  fun w =>
    let text := (style lib (Some "green") (service_name w) ++ style lib None ">")%string in
    let w' := log (EchoNoNl text) w in
    match line with
    | None => Raise EOFError w'
    | Some l => Ok l w'
    end.

(** The body of the loop after the prompt: [if text: ...]. *)
Definition run_body (cls : console_class) (text : string) : M unit :=
  match text with
  | "" => ret tt
  | _ =>
      match shlex_split text with
      | inl e => raise e
      | inr argv => (fun w => Ok tt (set_args argv w)) ;;; invoke cls argv
      end
  end.

(** [run] over the lines the operator types; the loop only ends by an
    exception, at the latest when the input does. *)
Fixpoint run (cls : console_class) (stdin : list string) : M unit :=
  match stdin with
  | [] => _ <- prompt None ;; ret tt
  | line :: rest =>
      text <- prompt (Some line) ;;
      run_body cls text ;;;
      run cls rest
  end.

End Console.

(** ** Vocabulary of the statements *)

(** [trace] extended by a run of events. *)
Definition emit (es : list event) (w : World) : World :=
  {| service_name := service_name w; machines := machines w; args := args w;
     trace := trace w ++ es |}.

(** What was written to the error stream, one entry per [click.echo]. *)
Fixpoint stderr_of (t : list event) : list string :=
  match t with
  | [] => []
  | Echo true text :: rest => text :: stderr_of rest
  | _ :: rest => stderr_of rest
  end.

(** A computation that only adds to the trace, and nothing to the error
    stream. *)
Definition quiet {A} (m : M A) : Prop :=
  forall w, exists es,
    trace (world_of (m w)) = trace w ++ es /\ stderr_of es = [].

(** The specs of the snapshot that a token selects, in order. *)
Definition matching_specs (nm : option string) (w : World) : list MachineSpec :=
  filter (matches (default_name nm)) (dict_keys (machines w)).

(** [d[s]] for each of [specs] (nothing for a key [d] lacks). *)
Definition machines_at (d : machine_dict) (specs : list MachineSpec)
    : list (option Machine) :=
  flat_map (fun s => match dict_get d s with
                     | Some v => [v]
                     | None => []
                     end) specs.

(** The machines a token selects. *)
Definition matched (nm : option string) (w : World) : list (option Machine) :=
  machines_at (machines w) (matching_specs nm w).

(** The entries of the mapping that have a live machine. *)
Definition live_entries (d : machine_dict) : list (MachineSpec * Machine) :=
  flat_map (fun item => match snd item with
                        | Some m => [(fst item, m)]
                        | None => []
                        end) d.

(** The row [ls] prints for a live entry, as an event. *)
Definition row_event (entry : MachineSpec * Machine) : event :=
  Echo false (ls_row (fst entry) (snd entry)).

(** What [pause] does to one machine, as events. *)
Definition pause_events (lib : Library) (time : float) (m : Machine) : list event :=
  [ Echo false ("Pausing machine " ++ repr_str lib (fq_name (spec m)) ++ " for "
                ++ str_float lib time ++ "s");
    Called (CPause m);
    Called (CSleep time);
    Called (CUnpause m);
    Called (CPing m 0) ].


(** ** A reference environment

    A plain binder in the manner of click for the signatures the source
    declares (options first, then positionals), and collaborators that
    answer plainly; the examples below run the console against them. *)

Definition is_option_like (a : string) : bool :=
  match a with
  | String "-" (String _ _) => true
  | _ => false
  end.

(** Options and positionals of a raw argument list; after [--] every
    argument is positional. *)
Fixpoint split_raw (raw : list string) : list string * list string :=
  match raw with
  | [] => ([], [])
  | a :: rest =>
      if (a =? "--")%string then ([], rest)
      else let (opts, pos) := split_raw rest in
           if is_option_like a then (a :: opts, pos) else (opts, a :: pos)
  end.

Definition known_options (c : command) : list string :=
  match c with
  | cmd_ls => ["-r"; "--refresh"; "--help"]
  | _ => ["--help"]
  end.

Definition extra_arguments {A} (pos : list string) : parse_result A :=
  Rejected ("Got unexpected extra arguments (" ++ join " " pos ++ ")").

Definition missing_argument {A} (what : string) : parse_result A :=
  Rejected ("Missing argument '" ++ what ++ "'.").

(** An optional positional and nothing else. *)
Definition bind_optional (pos : list string) : parse_result (option string) :=
  match pos with
  | [] => Parsed None
  | [x] => Parsed (Some x)
  | _ :: more => extra_arguments more
  end.

(** A required positional and nothing else. *)
Definition bind_required (what : string) (pos : list string) : parse_result string :=
  match pos with
  | [] => missing_argument what
  | [x] => Parsed x
  | _ :: more => extra_arguments more
  end.

Definition bind_none (pos : list string) : parse_result unit :=
  match pos with
  | [] => Parsed tt
  | _ => extra_arguments pos
  end.

Definition bind_pause (float_of : string -> option float) (pos : list string)
    : parse_result (float * option string) :=
  match pos with
  | [] => missing_argument "TIME"
  | t :: rest =>
      match float_of t with
      | None => Rejected ("Invalid value for 'TIME': '" ++ t ++ "' is not a valid float.")
      | Some x =>
          match rest with
          | [] => Parsed (x, None)
          | [m] => Parsed (x, Some m)
          | _ :: more => extra_arguments more
          end
      end
  end.

Definition bind_positionals (float_of : string -> option float) (opts : list string)
    (c : command) : list string -> parse_result (params c) :=
  match c with
  | cmd_browser | cmd_ping | cmd_logs | cmd_help | cmd_rt => bind_optional
  | cmd_env | cmd_exit => bind_none
  | cmd_ls => fun pos =>
      match bind_none pos with
      | Parsed _ => Parsed (in_tuple "-r" opts || in_tuple "--refresh" opts)
      | ShowHelp t => ShowHelp t
      | Rejected m => Rejected m
      end
  | cmd_pause => bind_pause float_of
  | cmd_add => bind_required "MODE"
  | cmd_rm | cmd_reboot => bind_required "MACHINE"
  end.

Definition reference_parse (float_of : string -> option float)
    (c : command) (raw : list string) : parse_result (params c) :=
  let (opts, pos) := split_raw raw in
  match find (fun o => negb (in_tuple o (known_options c))) opts with
  | Some o => Rejected ("No such option: " ++ o)
  | None =>
      if in_tuple "--help" opts then ShowHelp ("Usage: " ++ command_name c)
      else bind_positionals float_of opts c pos
  end.

(** A few durations, enough for the examples. *)
Definition sample_float_of (s : string) : option float :=
  if (s =? "2.0")%string then Some 2%float
  else if (s =? "0.5")%string then Some 0.5%float
  else None.

Definition sample_str_float (x : float) : string :=
  if PrimFloat.eqb x 2 then "2.0" else if PrimFloat.eqb x 0.5 then "0.5" else "?".

Definition reference_library : Library :=
  {| repr_str := fun s => ("'" ++ s ++ "'")%string;
     str_float := sample_str_float;
     style := fun _ text => text;
     click_parse := reference_parse sample_float_of;
     get_help := fun c _ => ("Usage: " ++ command_name c)%string;
     get_short_help_str := fun c _ => command_name c |}.

(** Collaborators that always answer and never change the topology. *)
Definition calm_reply (c : call) : reply :=
  match c with
  | CLogs _ => RText "started"
  | CEnv => REnv [("NEO4J_AUTH", "neo4j:password")]
  | CRouters => RProfiles ["bolt://localhost:17601"]
  | CRunners => RRunners ["bolt://localhost:17602"] ["bolt://localhost:17601"]
  | CGetRouterProfiles => RProfiles ["bolt://localhost:17601"]
  | CRemove _ | CReboot _ => RBool false
  | _ => RNone
  end.

Definition calm : Collaborators :=
  {| respond := fun _ c => calm_reply c;
     topology := fun _ _ d => d |}.

(** The same, except that refreshing the routing table fails. *)
Definition unroutable : Collaborators :=
  {| respond := fun _ c =>
       match c with
       | CRefresh _ => RRaise (CollaboratorError "ServiceUnavailable")
       | _ => calm_reply c
       end;
     topology := fun _ _ d => d |}.

Definition sample_spec (nm : string) (bolt : N) : MachineSpec :=
  {| name := nm; fq_name := nm ++ ".grolt"; config := [("dbms.mode", "CORE")];
     bolt_port := bolt; http_port := bolt + 100;
     http_uri := "http://localhost"; debug_opts := {| port := bolt + 200 |} |}.

Definition sample_machine (nm : string) (bolt : N) : Machine :=
  {| spec := sample_spec nm bolt; container := {| short_id := "c0ffee" ++ nm |} |}.

(** A cluster with specs a, b and c, of which only a and b are live. *)
Definition sample_world : World :=
  {| service_name := "grolt";
     machines := [ (sample_spec "a" 17601, Some (sample_machine "a" 17601));
                   (sample_spec "b" 17602, Some (sample_machine "b" 17602));
                   (sample_spec "c" 17603, None) ];
     args := None;
     trace := [] |}.

From Stdlib Require Import Sorted Permutation.

(** ** Vocabulary for the remaining commands *)




(** A line of the command list that [help] prints. *)
Definition help_line (lib : Library) (cls : console_class) (f : command) : string :=
  let command_width := list_max (map String.length (__iter__ cls)) in
  "  " ++ ljust command_width (command_name f) ++ "   "
  ++ get_short_help_str lib f (73 - command_width).

(** A line [env] prints. *)
Definition env_line (lib : Library) (kv : string * string) : string :=
  fst kv ++ "=" ++ repr_str lib (snd kv).

(** The message [rt] prints before it asks for the routing table. *)
Definition refreshing (lib : Library) (gdb : option string) : string :=
  match gdb with
  | None => "Refreshing routing information for the default graph database..."
  | Some g => "Refreshing routing information for graph database "
              ++ repr_str lib g ++ "..."
  end.

(** Collaborators whose [sleep] fails, as it does on a negative time. *)
Definition sleepless : Collaborators :=
  {| respond := fun _ c =>
       match c with
       | CSleep _ => RRaise (ValueError "sleep length must be non-negative")
       | _ => calm_reply c
       end;
     topology := fun _ _ d => d |}.

(** A service that has no router. *)
Definition routerless : Collaborators :=
  {| respond := fun _ c =>
       match c with
       | CRouters => RProfiles []
       | _ => calm_reply c
       end;
     topology := fun _ _ d => d |}.

(** The order [sorted] puts the items of the environment in. *)
Definition pair_le (a b : string * string) : Prop := pair_leb a b = true.

(** The order [sorted] puts names in. *)
Definition string_le (a b : string) : Prop := String.leb a b = true.

(** A character with no meaning to the tokenizer, and a word made of
    such characters. *)
Definition plain_char (c : ascii) : bool :=
  negb (is_whitespace c || is_quote c || is_escape c).

Definition plain_word (word : string) : bool :=
  match word with
  | "" => false
  | _ => forallb plain_char (list_ascii_of_string word)
  end.


(** An action that tells which machine it was given. *)
Definition announce (m : option Machine) : M unit :=
  match m with
  | Some m => echo (short_id (container m))
  | None => echo "None"
  end.

(** An action that empties the service's mapping, and returns. *)
Definition forgetful (m : option Machine) : M unit :=
  fun w => Ok tt (set_machines [] w).

Definition twin_spec (fq : string) (bolt : N) : MachineSpec :=
  {| name := "a"; fq_name := fq; config := [];
     bolt_port := bolt; http_port := bolt + 100;
     http_uri := "http://localhost"; debug_opts := {| port := bolt + 200 |} |}.

Definition twin_machine (fq : string) (bolt : N) : Machine :=
  {| spec := twin_spec fq bolt; container := {| short_id := fq |} |}.

(** A mapping in which two specs answer to the name a, with a third
    spec between them. *)
Definition twin_world : World :=
  {| service_name := "grolt";
     machines := [ (twin_spec "a.one" 17601, Some (twin_machine "a.one" 17601));
                   (sample_spec "b" 17602, Some (sample_machine "b" 17602));
                   (twin_spec "a.two" 17603, Some (twin_machine "a.two" 17603)) ];
     args := None;
     trace := [] |}.

(** * Properties *)

(** ** Worlds and traces *)

Lemma emit_nil (w : World) : emit [] w = w.
Proof. destruct w; unfold emit; simpl. now rewrite app_nil_r. Qed.

Lemma emit_emit (es1 es2 : list event) (w : World) :
  emit es2 (emit es1 w) = emit (es1 ++ es2) w.
Proof. unfold emit; simpl. now rewrite app_assoc. Qed.

Lemma log_emit (e : event) (w : World) : log e w = emit [e] w.
Proof. reflexivity. Qed.


Lemma stderr_of_app (t1 t2 : list event) :
  stderr_of (t1 ++ t2) = stderr_of t1 ++ stderr_of t2.
Proof.
  induction t1 as [|e t1 IH]; simpl; [reflexivity|].
  destruct e as [c|[|] text|text]; simpl; now rewrite IH.
Qed.

(** ** The monad *)

Lemma bind_Ok {A B} (m : M A) (k : A -> M B) (w w' : World) (b : B) :
  bind m k w = Ok b w' -> exists a w1, m w = Ok a w1 /\ k a w1 = Ok b w'.
Proof.
  unfold bind. destruct (m w) as [a w1|]; [eauto | discriminate].
Qed.

Lemma bind_Raise {A B} (m : M A) (k : A -> M B) (w w' : World) (e : exn) :
  bind m k w = Raise e w' ->
  m w = Raise e w' \/ exists a w1, m w = Ok a w1 /\ k a w1 = Raise e w'.
Proof.
  unfold bind. destruct (m w) as [a w1|e0 w0].
  - intros H. right. now exists a, w1.
  - intros H. inversion H; subst. now left.
Qed.

(** ** The mapping *)

Lemma dict_get_key (d : machine_dict) (s : MachineSpec) :
  In s (dict_keys d) -> exists v, dict_get d s = Some v.
Proof.
  induction d as [|[k v] d IH]; simpl; [tauto|].
  intros [Hk | Hin].
  - subst k. destruct (MachineSpec_eq_dec s s); [eauto | congruence].
  - destruct (MachineSpec_eq_dec s k); eauto.
Qed.

Lemma matches_false (nm : string) (s : MachineSpec) :
  matches nm s = false <-> nm <> name s /\ nm <> fq_name s.
Proof.
  unfold matches. rewrite orb_false_iff, !String.eqb_neq. tauto.
Qed.

Lemma filter_length_zero {X} (p : X -> bool) (l : list X) :
  List.length (filter p l) = 0 <-> forall x, In x l -> p x = false.
Proof.
  induction l as [|x l IH]; simpl.
  - split; [intros _ y [] | reflexivity].
  - destruct (p x) eqn:Hp; simpl.
    + split; [discriminate|]. intros H. specialize (H x (or_introl eq_refl)). congruence.
    + rewrite IH. split.
      * intros H y [<- | Hy]; auto.
      * intros H y Hy. apply H. now right.
Qed.

(** ** Target resolution *)

(** When the loop over the snapshot returns, the counter has grown by
    the number of matching specs, whatever the action did. *)
Lemma iter_specs_found (nm : string) (f : option Machine -> M unit) :
  forall specs found w n w',
    iter_specs nm specs (fun m found => f m ;;; ret (found + 1)) found w = Ok n w' ->
    n = found + List.length (filter (matches nm) specs).
Proof.
  induction specs as [|s specs IH]; simpl; intros found w n w' H.
  - inversion H. lia.
  - destruct (matches nm s); simpl.
    + unfold bind at 1 in H. destruct (getitem_machines s w) as [m w1|]; [|discriminate].
      unfold bind at 1 in H. unfold bind at 1 in H.
      destruct (f m w1) as [[] w2|]; [|discriminate].
      unfold ret at 1 in H. apply IH in H. lia.
    + now apply IH in H.
Qed.

(** With an action that leaves the mapping alone, the loop is the action
    run over the selected machines, one after the other. *)
Lemma iter_specs_seq (nm : string) (f : option Machine -> M unit)
    (Hf : forall m w0 w1, f m w0 = Ok tt w1 -> machines w1 = machines w0) :
  forall specs found w,
    incl specs (dict_keys (machines w)) ->
    iter_specs nm specs (fun m found => f m ;;; ret (found + 1)) found w
    = (for_each f (machines_at (machines w) (filter (matches nm) specs)) ;;;
       ret (found + List.length (filter (matches nm) specs))) w.
Proof.
  induction specs as [|s specs IH]; simpl; intros found w Hincl.
  - unfold bind, ret. simpl. now rewrite Nat.add_0_r.
  - assert (Hs : In s (dict_keys (machines w))) by (apply Hincl; now left).
    assert (Hrest : incl specs (dict_keys (machines w)))
      by (intros x Hx; apply Hincl; now right).
    destruct (matches nm s); simpl.
    + destruct (dict_get_key _ _ Hs) as [v Hv].
      unfold machines_at; simpl. rewrite Hv. simpl.
      unfold bind at 1. unfold getitem_machines. rewrite Hv.
      unfold bind at 1. unfold bind at 1. unfold bind at 2. unfold bind at 2.
      destruct (f v w) as [[] w1|e w1] eqn:Hfv; [|reflexivity].
      unfold ret at 1. rewrite IH by (rewrite (Hf _ _ _ Hfv); exact Hrest).
      rewrite (Hf _ _ _ Hfv). unfold bind, machines_at.
      destruct (for_each f _ w1); [|reflexivity].
      unfold ret. f_equal. lia.
    + now apply IH.
Qed.

(** A sequence of actions that each return does return. *)
Lemma for_each_returns {X} (f : X -> M unit) (xs : list X) :
  (forall x w, exists w', f x w = Ok tt w') ->
  forall w, exists w', for_each f xs w = Ok tt w'.
Proof.
  intros Hf. induction xs as [|x xs IH]; simpl; intros w.
  - now exists w.
  - unfold bind. destruct (Hf x w) as [w1 ->]. apply IH.
Qed.


Lemma for_each_machine_seq (nm : option string) (f : option Machine -> M unit) (w : World) :
  (forall m w0 w1, f m w0 = Ok tt w1 -> machines w1 = machines w0) ->
  _for_each_machine nm f w
  = (for_each f (matched nm w) ;;; ret (List.length (matching_specs nm w))) w.
Proof.
  intros Hf. unfold _for_each_machine, _iter_machines.
  rewrite (iter_specs_seq _ f Hf) by apply incl_refl. reflexivity.
Qed.


(** In a mapping (no key twice) an entry is what indexing by its key
    gives. *)
Lemma dict_get_entry (d : machine_dict) (k : MachineSpec) (v : option Machine) :
  NoDup (map fst d) -> In (k, v) d -> dict_get d k = Some v.
Proof.
  induction d as [|[k' v'] d IH]; simpl; intros Hnd Hin; [tauto|].
  inversion Hnd as [|? ? Hk' Hd]; subst.
  destruct Hin as [Heq | Hin].
  - inversion Heq; subst. destruct (MachineSpec_eq_dec k k); [reflexivity | congruence].
  - destruct (MachineSpec_eq_dec k k') as [-> | Hne]; [|now apply IH].
    exfalso. apply Hk'. change k' with (fst (k', v)). now apply in_map.
Qed.

Lemma machines_at_entries (d : machine_dict) :
  NoDup (map fst d) ->
  forall items, incl items d -> machines_at d (map fst items) = map snd items.
Proof.
  intros Hnd. induction items as [|[k v] items IH]; intros Hincl; [reflexivity|].
  unfold machines_at in *. cbn [map flat_map fst snd].
  rewrite (dict_get_entry d k v Hnd) by (apply Hincl; now left).
  simpl. f_equal. apply IH. intros x Hx. apply Hincl. now right.
Qed.

Lemma filter_keys (p : MachineSpec -> bool) (d : machine_dict) :
  filter p (dict_keys d) = map fst (filter (fun item => p (fst item)) d).
Proof.
  unfold dict_keys. induction d as [|[k v] d IH]; simpl; [reflexivity|].
  destruct (p k); simpl; now rewrite IH.
Qed.

(** C1. With [token] the given name, or a when the name is missing or
    empty, and [hits] the entries of the mapping whose spec has [token]
    as its name or fully-qualified name: for every action, when
    [_for_each_machine] returns it returns the number of hits, so 0
    exactly when no spec matches; for an action that leaves the mapping
    alone it is the action applied once to the machine of each hit, in
    the mapping's order, followed by that count; and when such an action
    always returns, [_for_each_machine] returns that count. *)
Theorem for_each_machine_counts_matches :
  forall (nm : option string) (f : option Machine -> M unit) (w : World),
    let token := match nm with
                 | Some (String c s) => String c s
                 | _ => "a"
                 end in
    let hits := filter (fun item => (token =? name (fst item))%string
                                    || (token =? fq_name (fst item))%string)
                       (machines w) in
    NoDup (map fst (machines w)) ->
    (forall n w', _for_each_machine nm f w = Ok n w' ->
       n = List.length hits
       /\ (n = 0 <-> forall item, In item (machines w) ->
                       token <> name (fst item) /\ token <> fq_name (fst item)))
    /\ ((forall m w0 w1, f m w0 = Ok tt w1 -> machines w1 = machines w0) ->
        _for_each_machine nm f w
        = (for_each f (map snd hits) ;;; ret (List.length hits)) w)
    /\ ((forall m w0, exists w1, f m w0 = Ok tt w1 /\ machines w1 = machines w0) ->
        _for_each_machine nm f w
        = Ok (List.length hits) (world_of (for_each f (map snd hits) w))).
Proof.
  intros nm f w token hits Hnd.
  assert (Htoken : default_name nm = token) by (destruct nm as [[|c s]|]; reflexivity).
  assert (Hspecs : matching_specs nm w = map fst hits)
    by (unfold matching_specs; rewrite Htoken; apply filter_keys).
  assert (Hmatched : matched nm w = map snd hits).
  { unfold matched. rewrite Hspecs. apply machines_at_entries; [exact Hnd|].
    intros item Hitem. now apply filter_In in Hitem. }
  assert (Hseq : (forall m w0 w1, f m w0 = Ok tt w1 -> machines w1 = machines w0) ->
                 _for_each_machine nm f w
                 = (for_each f (map snd hits) ;;; ret (List.length hits)) w).
  { intros Hf. rewrite (for_each_machine_seq nm f w Hf), Hmatched, Hspecs.
    now rewrite length_map. }
  split; [|split].
  - intros n w' H. unfold _for_each_machine, _iter_machines in H.
    apply iter_specs_found in H. simpl in H.
    fold (matching_specs nm w) in H. rewrite Hspecs, length_map in H. subst n.
    split; [reflexivity|]. unfold hits. rewrite filter_length_zero.
    split; intros Hno item Hitem.
    + specialize (Hno item Hitem). apply orb_false_iff in Hno as [H1 H2].
      now rewrite !String.eqb_neq in *.
    + apply orb_false_iff. rewrite !String.eqb_neq. now apply Hno.
  - exact Hseq.
  - intros Hf. rewrite Hseq.
    + unfold bind.
      destruct (for_each_returns f (map snd hits)) with (w := w) as [w' E].
      * intros x w0. destruct (Hf x w0) as [w1 [H1 _]]. eauto.
      * now rewrite E.
    + intros m w0 w1 H. destruct (Hf m w0) as [w2 [H2 Hm]]. congruence.
Qed.

(** Draining the generator gives the selected machines, and leaves the
    world as it was. *)
Lemma resolve_matched (nm : option string) (w : World) :
  resolve nm w = Ok (matched nm w) w.
Proof.
  unfold resolve, _iter_machines, matched, matching_specs.
  assert (H : forall specs acc,
             incl specs (dict_keys (machines w)) ->
             iter_specs (default_name nm) specs (fun m acc => ret (acc ++ [m])) acc w
             = Ok (acc ++ machines_at (machines w) (filter (matches (default_name nm)) specs)) w).
  { induction specs as [|s specs IH]; simpl; intros acc Hincl.
    - unfold ret. now rewrite app_nil_r.
    - assert (Hs : In s (dict_keys (machines w))) by (apply Hincl; now left).
      assert (Hrest : incl specs (dict_keys (machines w)))
        by (intros x Hx; apply Hincl; now right).
      destruct (matches (default_name nm) s); simpl; [|now apply IH].
      destruct (dict_get_key _ _ Hs) as [v Hv].
      unfold bind, getitem_machines, ret. rewrite Hv. simpl.
      rewrite IH by exact Hrest. now rewrite <- app_assoc. }
  now apply (H _ []), incl_refl.
Qed.

(** C7. For every snapshot, resolving the empty token yields the same
    sequence of machines as resolving the token a, namely the machines
    of the specs named a; any loop over the generator behaves the same
    for both tokens, and so does a call without a token. *)
Theorem resolve_empty_is_a :
  forall (w : World),
    resolve (Some "") w = resolve (Some "a") w
    /\ resolve (Some "") w
       = Ok (machines_at (machines w)
               (filter (fun s => (name s =? "a")%string || (fq_name s =? "a")%string)
                       (dict_keys (machines w)))) w
    /\ resolve None w = resolve (Some "a") w
    /\ (forall A (body : option Machine -> A -> M A) (acc : A),
          _iter_machines (Some "") body acc w = _iter_machines (Some "a") body acc w)
    /\ (forall f, _for_each_machine (Some "") f w = _for_each_machine (Some "a") f w).
Proof.
  intros w. repeat apply conj; try reflexivity.
  rewrite resolve_matched. unfold matched, matching_specs.
  change (default_name (Some "")) with "a". do 2 f_equal.
  apply filter_ext. intros s. unfold matches.
  now rewrite (String.eqb_sym "a" (name s)), (String.eqb_sym "a" (fq_name s)).
Qed.

Section Commands.

Variable collab : Collaborators.
Variable lib : Library.

(** ** Calls on collaborators *)

Lemma ext_reply (c : call) (w : World) (r : reply) :
  respond collab (trace w) c = r -> (forall e, r <> RRaise e) ->
  ext collab c w = Ok r (after_call collab c w).
Proof.
  intros Hr Hno. unfold ext. rewrite Hr.
  destruct r; try reflexivity. now destruct (Hno e).
Qed.

Lemma ext__returns (c : call) (w : World) :
  (forall e, respond collab (trace w) c <> RRaise e) ->
  ext_ collab c w = Ok tt (after_call collab c w).
Proof.
  intros Hno. unfold ext_, bind. now rewrite (ext_reply c w _ eq_refl Hno).
Qed.

Lemma ext__raises (c : call) (w : World) (e : exn) :
  respond collab (trace w) c = RRaise e ->
  ext_ collab c w = Raise e (after_call collab c w).
Proof.
  intros Hr. unfold ext_, bind, ext. now rewrite Hr.
Qed.


(** Whatever the reply, a call adds itself to the trace and nothing else. *)
Lemma ext_trace (c : call) (w : World) :
  trace (world_of (ext_ collab c w)) = trace w ++ [Called c].
Proof.
  unfold ext_, bind, ext.
  destruct (respond collab (trace w) c); reflexivity.
Qed.

(** ** pause *)




(** ** add *)



(** ** ls *)

Lemma ls_loop (d : machine_dict) :
  forall w,
    for_each (fun item : MachineSpec * option Machine =>
                match snd item with
                | None => ret tt
                | Some machine => echo (ls_row (fst item) machine)
                end) d w
    = Ok tt (emit (map row_event (live_entries d)) w).
Proof.
  induction d as [|[s [m|]] d IH]; intros w.
  - simpl. unfold ret. now rewrite emit_nil.
  - cbn [for_each]. unfold bind, echo. cbn [snd fst]. rewrite IH, log_emit, emit_emit.
    reflexivity.
  - cbn [for_each]. unfold bind, ret. cbn [snd]. now rewrite IH.
Qed.

Lemma config_get_absent (cfg : list (string * string)) (key default : string) :
  (forall v, ~ In (key, v) cfg) -> config_get cfg key default = default.
Proof.
  induction cfg as [|[k v] cfg IH]; simpl; intros H; [reflexivity|].
  destruct (String.eqb_spec k key) as [-> | Hk].
  - exfalso. apply (H v). now left.
  - apply IH. intros v' Hin. apply (H v'). now right.
Qed.

Lemma config_get_present (cfg : list (string * string)) (key default : string) :
  (exists v, In (key, v) cfg) -> In (key, config_get cfg key default) cfg.
Proof.
  induction cfg as [|[k v] cfg IH]; simpl; intros [v' H]; [tauto|].
  destruct (String.eqb_spec k key) as [-> | Hk].
  - now left.
  - right. apply IH. destruct H as [H | H]; [congruence | eauto].
Qed.

(** C9. [ls] prints the header and then exactly one row for each entry
    of the mapping whose machine is present, in order; entries without a
    machine are passed over, nothing goes to the error stream and the
    command returns.  The mode column of a row is SINGLE when the spec's
    configuration has no dbms.mode entry, and a configured dbms.mode
    value otherwise. *)
Theorem ls_prints_live_rows :
  forall (refresh : bool) (w : World),
    ls refresh w
    = Ok tt (emit (Echo false ls_header :: map row_event (live_entries (machines w))) w)
    /\ List.length (map row_event (live_entries (machines w)))
       = List.length (filter (fun item => match snd item with Some _ => true | None => false end)
                             (machines w))
    /\ stderr_of (Echo false ls_header :: map row_event (live_entries (machines w))) = []
    /\ (forall s m,
          ((forall v, ~ In ("dbms.mode", v) (config s)) ->
           ls_row s m
           = (ljust 12 (fq_name s) ++ ljust 12 (short_id (container m))
              ++ ljust 15 "SINGLE" ++ ljust 12 (str_N (bolt_port s))
              ++ ljust 12 (str_N (http_port s)) ++ str_N (port (debug_opts s)))%string)
          /\ ((exists v, In ("dbms.mode", v) (config s)) ->
              exists v, In ("dbms.mode", v) (config s)
                /\ ls_row s m
                   = (ljust 12 (fq_name s) ++ ljust 12 (short_id (container m))
                      ++ ljust 15 v ++ ljust 12 (str_N (bolt_port s))
                      ++ ljust 12 (str_N (http_port s))
                      ++ str_N (port (debug_opts s)))%string)).
Proof.
  intros refresh w. split; [|split; [|split]].
  - unfold ls, bind, echo. rewrite ls_loop, log_emit, emit_emit. reflexivity.
  - rewrite length_map. induction (machines w) as [|[s [m|]] d IH]; simpl; auto.
  - simpl. induction (live_entries (machines w)) as [|e l IH]; simpl; auto.
  - intros s m. split.
    + intros H. unfold ls_row. now rewrite config_get_absent.
    + intros H. exists (config_get (config s) "dbms.mode" "SINGLE").
      split; [now apply config_get_present | reflexivity].
Qed.

(** ** rt *)

(** A call that returns has added itself to the trace. *)
Lemma ext_Ok (c : call) (w w' : World) (r : reply) :
  ext collab c w = Ok r w' -> trace w' = trace w ++ [Called c].
Proof.
  unfold ext. destruct (respond collab (trace w) c); intros H; inversion H; reflexivity.
Qed.

Lemma ext__Ok (c : call) (w w' : World) :
  ext_ collab c w = Ok tt w' -> trace w' = trace w ++ [Called c].
Proof.
  intros H. pose proof (ext_trace c w) as T. now rewrite H in T.
Qed.

(** When [rt] returns, the connector was closed, and closing it was the
    last thing done. *)
Lemma rt_closes_on_success (gdb : option string) (w w' : World) :
  rt collab lib gdb w = Ok tt w' ->
  exists es, trace w' = trace w ++ es ++ [Called CClose].
Proof.
  unfold rt. intros H.
  apply bind_Ok in H as (r & w1 & E1 & H). apply ext_Ok in E1.
  apply bind_Ok in H as (routers & w2 & E2 & H).
  destruct r; try discriminate. inversion E2; subst; clear E2.
  destruct routers as [|profile routers]; [discriminate|].
  apply bind_Ok in H as ([] & w3 & E3 & H). apply ext__Ok in E3.
  apply bind_Ok in H as ([] & w4 & E4 & H).
  assert (T4 : exists text, trace w4 = trace w3 ++ [Echo false text]).
  { destruct gdb; inversion E4; eexists; reflexivity. }
  destruct T4 as [text T4].
  apply bind_Ok in H as ([] & w5 & E5 & H). apply ext__Ok in E5.
  apply bind_Ok in H as (r & w6 & E6 & H). apply ext_Ok in E6.
  apply bind_Ok in H as (runners & w7 & E7 & H).
  destruct r; try discriminate. inversion E7; subst; clear E7.
  apply bind_Ok in H as (r & w8 & E8 & H). apply ext_Ok in E8.
  apply bind_Ok in H as (profiles & w9 & E9 & H).
  destruct r; try discriminate. inversion E9; subst; clear E9.
  apply bind_Ok in H as ([] & w10 & E10 & H). inversion E10; subst; clear E10.
  apply bind_Ok in H as ([] & w11 & E11 & H). inversion E11; subst; clear E11.
  apply bind_Ok in H as ([] & w12 & E12 & H). inversion E12; subst; clear E12.
  apply ext__Ok in H. rewrite H. simpl.
  rewrite E8, E6, E5, T4, E3, E1. rewrite <- !app_assoc.
  exists [Called CRouters; Called (CConnect profile); Echo false text;
          Called (CRefresh gdb); Called CRunners; Called CGetRouterProfiles;
          Echo false ("Routers: " ++ join " " profiles);
          Echo false ("Readers: " ++ join " " ro);
          Echo false ("Writers: " ++ join " " rw)].
  reflexivity.
Qed.

(** C2 (what the code does). If refreshing the routing table raises, [rt]
    raises the same exception right there: the connector has been
    constructed, and it is not closed. *)
Theorem rt_leaves_connector_open :
  forall (gdb : option string) (w : World) (profile : string) (others : list string)
         (e : exn),
    respond collab (trace w) CRouters = RProfiles (profile :: others) ->
    (forall h e', respond collab h (CConnect profile) <> RRaise e') ->
    (forall h, respond collab h (CRefresh gdb) = RRaise e) ->
    exists w' text,
      rt collab lib gdb w = Raise e w'
      /\ trace w' = trace w ++ [Called CRouters; Called (CConnect profile);
                                Echo false text; Called (CRefresh gdb)]
      /\ ~ In (Called CClose) [Called CRouters; Called (CConnect profile);
                               Echo false text; Called (CRefresh gdb)].
Proof.
  intros gdb w profile others e Hrouters Hconnect Hrefresh.
  unfold rt. unfold bind at 1.
  rewrite (ext_reply CRouters w _ Hrouters) by discriminate.
  unfold bind at 1. unfold as_profiles, ret.
  unfold bind at 1. rewrite ext__returns by apply Hconnect.
  unfold bind at 1.
  destruct gdb as [g|]; unfold echo; unfold bind at 1;
    rewrite (ext__raises _ _ e) by apply Hrefresh;
    eexists; eexists; (split; [reflexivity|]); (split;
    [ simpl; rewrite <- !app_assoc; reflexivity
    | simpl; intros [H|[H|[H|[H|[]]]]]; discriminate ]).
Qed.

(** ** Nothing but [invoke] writes to the error stream *)

Lemma quiet_ret {A} (a : A) : quiet (ret a).
Proof. intros w. exists []. simpl. now rewrite app_nil_r. Qed.

Lemma quiet_raise {A} (e : exn) : quiet (@raise A e).
Proof. intros w. exists []. simpl. now rewrite app_nil_r. Qed.

Lemma quiet_bind {A B} (m : M A) (k : A -> M B) :
  quiet m -> (forall a, quiet (k a)) -> quiet (bind m k).
Proof.
  intros Hm Hk w. destruct (Hm w) as [es1 [T1 S1]]. unfold bind.
  destruct (m w) as [a w1|e w1]; simpl in *.
  - destruct (Hk a w1) as [es2 [T2 S2]]. exists (es1 ++ es2).
    rewrite T2, T1, app_assoc, stderr_of_app, S1, S2. auto.
  - exists es1. auto.
Qed.

Lemma quiet_echo (text : string) : quiet (echo text).
Proof. intros w. exists [Echo false text]. auto. Qed.

Lemma quiet_ext (c : call) : quiet (ext collab c).
Proof.
  intros w. exists [Called c]. unfold ext.
  destruct (respond collab (trace w) c); auto.
Qed.

Lemma quiet_for_each {X} (f : X -> M unit) (xs : list X) :
  (forall x, quiet (f x)) -> quiet (for_each f xs).
Proof.
  intros Hf. induction xs as [|x xs IH]; simpl.
  - apply quiet_ret.
  - apply quiet_bind; auto.
Qed.

Lemma quiet_getitem_machines (s : MachineSpec) : quiet (getitem_machines s).
Proof.
  intros w. exists []. unfold getitem_machines.
  destruct (dict_get (machines w) s); simpl; now rewrite app_nil_r.
Qed.

Lemma quiet_for_each_machine (nm : option string) (f : option Machine -> M unit) :
  (forall m, quiet (f m)) -> quiet (_for_each_machine nm f).
Proof.
  intros Hf.
  assert (H : forall specs found,
             quiet (iter_specs (default_name nm) specs
                      (fun m found => f m ;;; ret (found + 1)) found)).
  { induction specs as [|s specs IH]; intros found; cbn [iter_specs].
    - apply quiet_ret.
    - destruct (matches (default_name nm) s); [|apply IH].
      apply quiet_bind; [apply quiet_getitem_machines|]. intros m.
      apply quiet_bind; [|intros; apply IH].
      apply quiet_bind; [apply Hf | intros; apply quiet_ret]. }
  intros w. apply H.
Qed.

Lemma quiet_getitem (cls : console_class) (nm : string) : quiet (__getitem__ cls nm).
Proof.
  unfold __getitem__. destruct (getattr cls nm) as [[f|]|];
    first [apply quiet_ret | apply quiet_raise].
Qed.

Lemma quiet_make_context (f : command) (info_name : string) (raw : list string) :
  quiet (make_context lib f info_name raw).
Proof.
  unfold make_context. destruct (click_parse lib f raw).
  - apply quiet_ret.
  - apply quiet_bind; [apply quiet_echo | intros; apply quiet_raise].
  - apply quiet_raise.
Qed.

(** Breaks a computation down along its binds and case splits. *)
Ltac hush :=
  repeat first
    [ apply quiet_ret | apply quiet_raise | apply quiet_echo | apply quiet_ext
    | apply quiet_getitem | apply quiet_make_context
    | apply quiet_for_each; intros
    | apply quiet_for_each_machine; intros
    | apply quiet_bind; [|intros]
    | match goal with
      | |- quiet (match ?x with _ => _ end) => destruct x
      | |- quiet (if ?b then _ else _) => destruct b
      end ].

Lemma quiet_callback (cls : console_class) (f : command) (p : params f) :
  quiet (callback collab lib cls f p).
Proof.
  destruct f; cbn [callback];
    unfold browser, env, exit, help, ls, ping, rt, logs, pause, pause_f,
           add, rm, reboot, ext_, as_text, as_profiles, as_runners, as_env;
    hush.
  (* ls reads the mapping before it loops *)
  intros w. destruct (quiet_for_each
                        (fun item : MachineSpec * option Machine =>
                           match snd item with
                           | None => ret tt
                           | Some machine => echo (ls_row (fst item) machine)
                           end) (machines w)) with (w := w) as [es H];
    [intros [s [m|]]; hush | eauto].
Qed.

Lemma quiet_invoke_body (cls : console_class) (argv : list string) :
  quiet (invoke_body collab lib cls argv).
Proof.
  unfold invoke_body. destruct argv as [|arg0 rest]; hush. apply quiet_callback.
Qed.

(** ** invoke *)

Lemma getitem_unregistered (cls : console_class) (nm : string) (w : World) :
  ~ In nm (__iter__ cls) -> __getitem__ cls nm w = Raise (no_such_command nm) w.
Proof.
  intros Hnot. unfold __getitem__, getattr.
  destruct (find (fun c => (command_name c =? nm)%string) (members cls)) as [c|] eqn:E.
  - apply find_some in E as [Hin Hname]. apply String.eqb_eq in Hname.
    exfalso. apply Hnot. subst nm. unfold __iter__. now apply in_map.
  - destruct (existsb (String.eqb nm) other_attributes); reflexivity.
Qed.

Lemma getitem_command (cls : console_class) (nm : string) (f : command) (w : World) :
  getattr cls nm = Some (AttrCommand f) -> __getitem__ cls nm w = Ok f w.
Proof. intros H. unfold __getitem__. now rewrite H. Qed.


(** Anything else that is not click's [Exit] goes through. *)
Lemma invoke_lets_through (cls : console_class) (argv : list string) (w w' : World)
    (e : exn) :
  invoke_body collab lib cls argv w = Raise e w' ->
  is_ClickExit e = false -> is_ClickException e = false ->
  invoke collab lib cls argv w = Raise e w'.
Proof.
  intros H Hx Hc. unfold invoke, try_except. rewrite H. unfold invoke_handler.
  now rewrite Hx, Hc.
Qed.


(** ** The read-eval loop *)

Lemma read_tokens_blank (cs : list ascii) (acc : list string) :
  forallb is_whitespace cs = true ->
  read_tokens cs InWhitespace "" false acc = inr acc.
Proof.
  induction cs as [|c cs IH]; simpl; intros H; [reflexivity|].
  apply andb_true_iff in H as [Hc Hcs]. rewrite Hc. now apply IH.
Qed.

(** A line of whitespace splits into no token at all. *)
Lemma shlex_split_blank (text : string) :
  blank text = true -> shlex_split text = inr [].
Proof. intros H. unfold shlex_split. now apply read_tokens_blank. Qed.

Lemma run_body_empty_line (cls : console_class) (w : World) :
  run_body collab lib cls "" w = Ok tt w.
Proof. reflexivity. Qed.

(** An empty line goes straight back to the prompt. *)
Lemma run_empty_line (cls : console_class) (rest : list string) (w : World) :
  run collab lib cls ("" :: rest) w
  = run collab lib cls rest (world_of (prompt lib (Some "") w)).
Proof. reflexivity. Qed.

(** An exception that leaves the body of the loop ends [run]: nothing in
    the loop catches it, and the lines that follow are never read. *)
Lemma run_propagates (cls : console_class) (line : string) (rest : list string)
    (w w' : World) (e : exn) :
  run_body collab lib cls line (world_of (prompt lib (Some line) w)) = Raise e w' ->
  run collab lib cls (line :: rest) w = Raise e w'.
Proof.
  intros H. cbn [run]. unfold bind at 1. unfold prompt in *. cbn [world_of] in H.
  unfold bind at 1. now rewrite H.
Qed.

(** The loop never returns: it ends by an exception, at the latest the
    end of the input. *)
Lemma run_ends_by_exception (cls : console_class) (stdin : list string) :
  forall w, exists e w', run collab lib cls stdin w = Raise e w'.
Proof.
  induction stdin as [|line rest IH]; intros w; cbn [run].
  - unfold bind, prompt. eauto.
  - unfold bind at 1. unfold prompt. unfold bind at 1.
    destruct (run_body collab lib cls line _) as [[] w1|e w1]; [apply IH | eauto].
Qed.

(** C5. When the binder accepts exit without arguments, the [SystemExit]
    that the exit command raises leaves [invoke] uncaught and ends [run]
    at that line, whatever lines follow, and the interpreter's exit code
    for it is 0.  Any exception of the guarded block that is neither a
    click exception nor click's [Exit] likewise leaves [invoke] as it is,
    and ends the loop at its line. *)
Theorem exit_and_unexpected_errors_propagate :
  forall (cls : console_class) (w : World),
    click_parse lib cmd_exit [] = Parsed tt ->
    invoke collab lib cls ["exit"] w = Raise SystemExit w
    /\ (forall rest, exists w',
          run collab lib cls ("exit" :: rest) w = Raise SystemExit w'
          /\ exit_code SystemExit = 0%N)
    /\ (forall argv e w',
          invoke_body collab lib cls argv w = Raise e w' ->
          is_ClickExit e = false -> is_ClickException e = false ->
          invoke collab lib cls argv w = Raise e w')
    /\ (forall line argv rest e w',
          line <> "" ->
          shlex_split line = inr argv ->
          invoke_body collab lib cls argv
            (set_args argv (world_of (prompt lib (Some line) w))) = Raise e w' ->
          is_ClickExit e = false -> is_ClickException e = false ->
          run collab lib cls (line :: rest) w = Raise e w').
Proof.
  intros cls w Hexit.
  assert (Hinvoke : forall w0, invoke collab lib cls ["exit"] w0 = Raise SystemExit w0).
  { intros w0. apply invoke_lets_through; try reflexivity.
    unfold invoke_body, bind.
    rewrite (getitem_command cls "exit" cmd_exit) by (destruct cls; reflexivity).
    unfold make_context. rewrite Hexit. reflexivity. }
  repeat apply conj.
  - apply Hinvoke.
  - intros rest. eexists. split; [|reflexivity].
    apply run_propagates. unfold run_body. cbn [shlex_split]. 
    change (shlex_split "exit") with (@inr exn _ ["exit"]).
    unfold bind. apply Hinvoke.
  - intros argv e w'. apply invoke_lets_through.
  - intros line argv rest e w' Hline Hsplit Hbody Hx Hc.
    apply run_propagates. unfold run_body.
    destruct line as [|c line]; [congruence|]. rewrite Hsplit.
    unfold bind. now apply invoke_lets_through.
Qed.

(** C10. [invoke] without any token raises [IndexError], which neither
    handler of [invoke] catches; so a line of whitespace, which is not
    empty and splits into no token, ends [run] with that [IndexError]:
    the line was tokenized, nothing was printed to the error stream, and
    the lines that follow are never read. *)
Theorem invoke_without_tokens_crashes :
  forall (cls : console_class) (w : World),
    invoke collab lib cls [] w = Raise IndexError w
    /\ is_ClickExit IndexError = false
    /\ is_ClickException IndexError = false
    /\ (forall line rest,
          line <> "" -> blank line = true ->
          exists w',
            run collab lib cls (line :: rest) w = Raise IndexError w'
            /\ args w' = Some []
            /\ stderr_of (trace w') = stderr_of (trace w)).
Proof.
  intros cls w. repeat apply conj; try reflexivity.
  intros line rest Hline Hblank. eexists. split; [|split].
  - apply run_propagates. unfold run_body.
    destruct line as [|c line]; [congruence|].
    rewrite (shlex_split_blank _ Hblank). unfold bind. reflexivity.
  - reflexivity.
  - simpl. rewrite stderr_of_app. simpl. now rewrite app_nil_r.
Qed.

End Commands.

(** ** The console on the sample cluster *)

Lemma for_each_machine_counts_matches_witness :
  _for_each_machine (Some "b") announce sample_world
  = Ok 1 (emit [Echo false "c0ffeeb"] sample_world)
  /\ _for_each_machine None announce twin_world
     = Ok 2 (emit [Echo false "a.one"; Echo false "a.two"] twin_world).
Proof.
  split.
  - apply (for_each_machine_counts_matches (Some "b") announce sample_world).
    + repeat constructor; simpl; intuition discriminate.
    + intros [m|] w0; eexists; split; reflexivity.
  - apply (for_each_machine_counts_matches None announce twin_world).
    + repeat constructor; simpl; intuition discriminate.
    + intros [m|] w0; eexists; split; reflexivity.
Defined.

(** C1, as first stated, fails for an action that changes the mapping:
    two specs answer to a and the action returns on every machine, yet
    after its first call the second spec is no longer in the mapping,
    indexing by it raises [KeyError], and the action has run once, not
    twice. *)
Lemma for_each_machine_mutating_action_counterexample :
  (forall m w0, forgetful m w0 = Ok tt (set_machines [] w0))
  /\ List.length (filter (fun item => ("a" =? name (fst item))%string
                                      || ("a" =? fq_name (fst item))%string)
                         (machines twin_world)) = 2
  /\ _for_each_machine (Some "a") forgetful twin_world
     = Raise KeyError (set_machines [] twin_world).
Proof. repeat split. Qed.


Lemma rt_leaves_connector_open_witness :
  exists w' text,
    rt unroutable reference_library (Some "mydb") sample_world
    = Raise (CollaboratorError "ServiceUnavailable") w'
    /\ trace w' = trace sample_world
                  ++ [Called CRouters; Called (CConnect "bolt://localhost:17601");
                      Echo false text; Called (CRefresh (Some "mydb"))]
    /\ ~ In (Called CClose)
            [Called CRouters; Called (CConnect "bolt://localhost:17601");
             Echo false text; Called (CRefresh (Some "mydb"))].
Proof.
  apply (rt_leaves_connector_open unroutable reference_library (Some "mydb")
           sample_world "bolt://localhost:17601" []).
  - reflexivity.
  - intros h e'. simpl. discriminate.
  - intros h. reflexivity.
Defined.

(** C3 (what the code does). A line holding one space is blank, yet the
    loop tokenizes it (into no token) and calls [invoke], whose
    [IndexError] ends [run]; the line after it is never read. *)
Theorem whitespace_line_is_dispatched :
  blank " " = true
  /\ run calm reference_library Neo4jConsole [" "; "ls"] sample_world
     = Raise IndexError (set_args [] (log (EchoNoNl "grolt>") sample_world)).
Proof. split; reflexivity. Qed.


Lemma exit_and_unexpected_errors_propagate_witness :
  invoke calm reference_library Neo4jConsole ["exit"] sample_world
  = Raise SystemExit sample_world.
Proof.
  exact (proj1 (exit_and_unexpected_errors_propagate calm reference_library
                  Neo4jConsole sample_world eq_refl)).
Defined.



Lemma ls_prints_live_rows_witness :
  ls false sample_world
  = Ok tt (emit [ Echo false ls_header;
                  row_event (sample_spec "a" 17601, sample_machine "a" 17601);
                  row_event (sample_spec "b" 17602, sample_machine "b" 17602) ]
             sample_world)
  /\ ls_row {| name := "d"; fq_name := "d.grolt"; config := [];
               bolt_port := 7687; http_port := 7474; http_uri := "http://localhost";
               debug_opts := {| port := 5005 |} |}
            (sample_machine "d" 7687)
     = "d.grolt     c0ffeed     SINGLE         7687        7474        5005".
Proof.
  split.
  - apply (ls_prints_live_rows false sample_world).
  - rewrite (proj1 (proj2 (proj2 (proj2 (ls_prints_live_rows false sample_world))) _ _)).
    + reflexivity.
    + intros v [].
Defined.

Lemma invoke_without_tokens_crashes_witness :
  exists w',
    run calm reference_library Neo4jConsole ["   "; "exit"] sample_world
    = Raise IndexError w'
    /\ args w' = Some []
    /\ stderr_of (trace w') = stderr_of (trace sample_world).
Proof.
  apply (invoke_without_tokens_crashes calm reference_library Neo4jConsole sample_world).
  - discriminate.
  - reflexivity.
Defined.

(** * Further properties of the console *)

(** ** The loop over the selected machines *)

(** The first selected machine is the first the action sees: if the
    action raises on it, that is the outcome of the whole loop. *)
Lemma iter_specs_head_raises {A} (nm : string) (body : option Machine -> A -> M A)
    (v : option Machine) (tail : list (option Machine)) (e : exn) :
  forall specs acc w w',
    incl specs (dict_keys (machines w)) ->
    machines_at (machines w) (filter (matches nm) specs) = v :: tail ->
    body v acc w = Raise e w' ->
    iter_specs nm specs body acc w = Raise e w'.
Proof.
  induction specs as [|s specs IH]; intros acc w w' Hincl Hsel Hbody.
  - discriminate.
  - assert (Hs : In s (dict_keys (machines w))) by (apply Hincl; now left).
    assert (Hrest : incl specs (dict_keys (machines w)))
      by (intros x Hx; apply Hincl; now right).
    cbn [filter iter_specs] in *. destruct (matches nm s).
    + destruct (dict_get_key _ _ Hs) as [v0 Hv0].
      unfold machines_at in Hsel. cbn [flat_map] in Hsel. rewrite Hv0 in Hsel.
      inversion Hsel; subst v0.
      unfold bind, getitem_machines. rewrite Hv0, Hbody. reflexivity.
    + now apply IH with (w' := w').
Qed.


(** X1. [_for_each_machine] stops at the first failure: when the action
    leaves the mapping alone, returns on the machines before one and
    raises on that one, the loop raises the same exception there, the
    earlier actions have run, and the machines after it are never
    touched. *)
Theorem for_each_machine_stops_at_failure :
  forall (nm : option string) (f : option Machine -> M unit) (w : World)
         (before after : list (option Machine)) (m : option Machine)
         (e : exn) (w1 w2 : World),
    (forall m0 w0 w', f m0 w0 = Ok tt w' -> machines w' = machines w0) ->
    matched nm w = before ++ m :: after ->
    for_each f before w = Ok tt w1 ->
    f m w1 = Raise e w2 ->
    _for_each_machine nm f w = Raise e w2.
Proof.
  intros nm f w before after m e w1 w2 Hkeep Hsel Hbefore Hm.
  rewrite for_each_machine_seq by exact Hkeep. rewrite Hsel. unfold bind.
  assert (H : forall l w0, for_each f l w0 = Ok tt w1 ->
                           for_each f (l ++ m :: after) w0 = Raise e w2).
  { induction l as [|x l IH]; intros w0 Hl.
    - inversion Hl; subst. cbn [app for_each]. unfold bind. now rewrite Hm.
    - cbn [app for_each] in *. unfold bind in *.
      destruct (f x w0) as [[] w'|]; [now apply IH | discriminate]. }
  now rewrite (H _ _ Hbefore).
Qed.

Section MoreCommands.

Variable collab : Collaborators.
Variable lib : Library.

(** ** ping, logs, browser *)




(** X5. A spec without a live machine is still selected: when the first
    machine a token selects is [None], [ping], [logs], [pause] and
    [browser] raise [AttributeError] before doing anything (they do not
    report the machine as not found), and [invoke] lets that exception
    through. *)
Theorem commands_fail_on_absent_machine :
  forall (machine : option string) (w : World) (others : list (option Machine))
         (time : float),
    matched machine w = None :: others ->
    ping collab lib machine w = Raise AttributeError w
    /\ logs collab lib machine w = Raise AttributeError w
    /\ pause collab lib time machine w = Raise AttributeError w
    /\ browser collab lib machine w = Raise AttributeError w
    /\ invoke_handler AttributeError w = Raise AttributeError w.
Proof.
  intros machine w others time Hsel.
  assert (H : forall f : option Machine -> M unit,
             f None w = Raise AttributeError w ->
             _for_each_machine machine f w = Raise AttributeError w).
  { intros f Hf. unfold _for_each_machine, _iter_machines.
    apply (iter_specs_head_raises _ _ None others); try exact Hsel.
    - apply incl_refl.
    - unfold bind. now rewrite Hf. }
  repeat apply conj; try reflexivity;
    unfold ping, logs, pause, browser, bind; now rewrite H.
Qed.

(** ** pause *)

(** X6. [pause] has no cleanup: when pausing the container of the first
    matched machine returns and [sleep] raises, [pause] raises the same
    exception at once: of the five steps only the first three have
    happened (announce, pause, sleep), so the container has been paused
    and is neither unpaused nor pinged. *)
Theorem pause_leaves_container_paused :
  forall (time : float) (machine : option string) (w : World) (m : Machine)
         (others : list (option Machine)) (e : exn),
    matched machine w = Some m :: others ->
    (forall h e', respond collab h (CPause m) <> RRaise e') ->
    (forall h, respond collab h (CSleep time) = RRaise e) ->
    exists w',
      pause collab lib time machine w = Raise e w'
      /\ trace w' = trace w ++ firstn 3 (pause_events lib time m).
Proof.
  intros time machine w m others e Hsel Hpause Hsleep.
  eexists. split.
  - unfold pause. unfold bind at 1. unfold _for_each_machine, _iter_machines.
    erewrite (iter_specs_head_raises _ _ (Some m) others); try exact Hsel.
    + reflexivity.
    + apply incl_refl.
    + unfold bind at 1. unfold pause_f, echo. unfold bind at 1.
      unfold bind at 1. rewrite ext__returns by apply Hpause.
      unfold bind at 1. rewrite (ext__raises _ _ _ e) by apply Hsleep.
      reflexivity.
  - simpl. rewrite <- !app_assoc. reflexivity.
Qed.

(** ** rm, reboot *)

(** X7. [rm] makes exactly one call, [service.remove(machine)], whatever
    comes of it; when the service answers, [rm] returns if the answer is
    true and raises the not-found error if it is false. *)
Theorem rm_delegates :
  forall (machine : string) (w : World),
    trace (world_of (rm collab lib machine w)) = trace w ++ [Called (CRemove machine)]
    /\ (forall b, respond collab (trace w) (CRemove machine) = RBool b ->
          rm collab lib machine w
          = if b then Ok tt (after_call collab (CRemove machine) w)
            else Raise (not_found (repr_str lib machine))
                       (after_call collab (CRemove machine) w))
    /\ (forall e, respond collab (trace w) (CRemove machine) = RRaise e ->
          rm collab lib machine w = Raise e (after_call collab (CRemove machine) w)).
Proof.
  intros machine w. unfold rm, bind, ext. repeat apply conj.
  - destruct (respond collab (trace w) (CRemove machine)) as [|[|]|s|ps|ro rw|kvs|e];
      try reflexivity; simpl;
      match goal with |- context [if ?c then _ else _] => destruct c end; reflexivity.
  - intros b ->. destruct b; reflexivity.
  - intros e ->. reflexivity.
Qed.

(** X8. [reboot] makes exactly one call, [service.reboot(machine)],
    whatever comes of it; when the service answers, [reboot] returns if
    the answer is true and raises the not-found error if it is false. *)
Theorem reboot_delegates :
  forall (machine : string) (w : World),
    trace (world_of (reboot collab lib machine w)) = trace w ++ [Called (CReboot machine)]
    /\ (forall b, respond collab (trace w) (CReboot machine) = RBool b ->
          reboot collab lib machine w
          = if b then Ok tt (after_call collab (CReboot machine) w)
            else Raise (not_found (repr_str lib machine))
                       (after_call collab (CReboot machine) w))
    /\ (forall e, respond collab (trace w) (CReboot machine) = RRaise e ->
          reboot collab lib machine w = Raise e (after_call collab (CReboot machine) w)).
Proof.
  intros machine w. unfold reboot, bind, ext. repeat apply conj.
  - destruct (respond collab (trace w) (CReboot machine)) as [|[|]|s|ps|ro rw|kvs|e];
      try reflexivity; simpl;
      match goal with |- context [if ?c then _ else _] => destruct c end; reflexivity.
  - intros b ->. destruct b; reflexivity.
  - intros e ->. reflexivity.
Qed.

(** ** rt *)

(** X9. With a service that has no router, [rt] raises [IndexError]
    after the one call that lists the routers: no connector is built and
    nothing is printed. *)
Theorem rt_without_routers :
  forall (gdb : option string) (w : World),
    respond collab (trace w) CRouters = RProfiles [] ->
    rt collab lib gdb w = Raise IndexError (after_call collab CRouters w)
    /\ trace (after_call collab CRouters w) = trace w ++ [Called CRouters].
Proof.
  intros gdb w H. split; [|reflexivity].
  unfold rt, bind. rewrite (ext_reply collab CRouters w _ H) by discriminate.
  reflexivity.
Qed.

(** X10. When every call answers as its interface says, [rt] returns, and
    it has done this and nothing else, in this order: list the routers,
    build the connector from the first router's profile, announce,
    refresh the routing table for the given database, read the runners,
    read the router profiles, print routers, readers and writers, close
    the connector. *)
Theorem rt_displays_routing_table :
  forall (gdb : option string) (w : World) (profile : string)
         (others ro rw routers : list string),
    respond collab (trace w) CRouters = RProfiles (profile :: others) ->
    (forall h e, respond collab h (CConnect profile) <> RRaise e) ->
    (forall h e, respond collab h (CRefresh gdb) <> RRaise e) ->
    (forall h, respond collab h CRunners = RRunners ro rw) ->
    (forall h, respond collab h CGetRouterProfiles = RProfiles routers) ->
    (forall h e, respond collab h CClose <> RRaise e) ->
    exists w',
      rt collab lib gdb w = Ok tt w'
      /\ trace w'
         = trace w
           ++ [ Called CRouters; Called (CConnect profile);
                Echo false (refreshing lib gdb);
                Called (CRefresh gdb); Called CRunners; Called CGetRouterProfiles;
                Echo false ("Routers: " ++ join " " routers);
                Echo false ("Readers: " ++ join " " ro);
                Echo false ("Writers: " ++ join " " rw);
                Called CClose ].
Proof.
  intros gdb w profile others ro rw routers Hr Hc Hf Hru Hg Hcl.
  unfold rt. unfold bind at 1.
  rewrite (ext_reply collab CRouters w _ Hr) by discriminate.
  unfold bind at 1. unfold as_profiles at 1. unfold ret at 1.
  unfold bind at 1. rewrite ext__returns by apply Hc.
  unfold bind at 1.
  assert (Hecho : forall w0,
             match gdb with
             | Some g => echo ("Refreshing routing information for graph database "
                               ++ repr_str lib g ++ "...")
             | None => echo "Refreshing routing information for the default graph database..."
             end w0 = Ok tt (log (Echo false (refreshing lib gdb)) w0))
    by (intros w0; destruct gdb; reflexivity).
  rewrite Hecho.
  unfold bind at 1. rewrite ext__returns by apply Hf.
  unfold bind at 1. rewrite (ext_reply collab CRunners _ _ (Hru _)) by discriminate.
  unfold bind at 1. unfold as_runners at 1. unfold ret at 1.
  unfold bind at 1. rewrite (ext_reply collab CGetRouterProfiles _ _ (Hg _)) by discriminate.
  unfold bind at 1. unfold as_profiles at 1. unfold ret at 1.
  unfold bind at 1. unfold echo at 1.
  unfold bind at 1. unfold echo at 1.
  unfold bind at 1. unfold echo at 1.
  rewrite ext__returns by apply Hcl.
  eexists. split; [reflexivity|].
  simpl. rewrite <- !app_assoc. reflexivity.
Qed.

(** ** env *)

Lemma pair_leb_total (a b : string * string) :
  pair_leb a b = true \/ pair_leb b a = true.
Proof.
  unfold pair_leb. rewrite (String.compare_antisym (fst b) (fst a)).
  destruct (String.compare (fst a) (fst b)); simpl; auto.
  apply String.leb_total.
Qed.

Lemma insert_item_perm (x : string * string) (xs : list (string * string)) :
  Permutation (insert_item x xs) (x :: xs).
Proof.
  induction xs as [|y xs IH]; simpl; [reflexivity|].
  destruct (pair_leb x y); [reflexivity|].
  rewrite IH. apply perm_swap.
Qed.

Lemma insert_item_sorted (x : string * string) (xs : list (string * string)) :
  Sorted pair_le xs -> Sorted pair_le (insert_item x xs).
Proof.
  induction xs as [|y xs IH]; simpl; intros Hs.
  - repeat constructor.
  - destruct (pair_leb x y) eqn:Hxy.
    + constructor; [exact Hs | now constructor].
    + inversion Hs as [|? ? Hxs Hy]; subst.
      constructor; [now apply IH|].
      assert (Hyx : pair_le y x)
        by (destruct (pair_leb_total x y); [congruence | assumption]).
      destruct xs as [|z xs]; simpl.
      * now constructor.
      * destruct (pair_leb x z); constructor; auto. now inversion Hy.
Qed.

(** X11. When the service hands out its environment, [env] prints one
    line, key=repr(value), for each entry and nothing else: the lines
    are the entries rearranged in ascending order of (key, value). *)
Theorem env_prints_sorted_items :
  forall (items : list (string * string)) (w : World),
    respond collab (trace w) CEnv = REnv items ->
    env collab lib w
    = Ok tt (emit (map (fun kv => Echo false (env_line lib kv)) (sorted_items items))
               (after_call collab CEnv w))
    /\ Permutation (sorted_items items) items
    /\ Sorted pair_le (sorted_items items).
Proof.
  intros items w H. repeat apply conj.
  - unfold env, bind. rewrite (ext_reply collab CEnv w _ H) by discriminate.
    unfold as_env, ret. generalize (after_call collab CEnv w) as w0.
    induction (sorted_items items) as [|kv l IH]; intros w0; simpl.
    + unfold ret. now rewrite emit_nil.
    + unfold bind, echo. rewrite IH, log_emit, emit_emit. reflexivity.
  - clear H. unfold sorted_items. induction items as [|x xs IH]; simpl; [reflexivity|].
    eapply perm_trans; [apply insert_item_perm | apply perm_skip; exact IH].
  - clear H. unfold sorted_items. induction items as [|x xs IH]; simpl; [constructor|].
    now apply insert_item_sorted.
Qed.

(** ** The registry *)

(** X12. Iterating and indexing the console agree: a name is among the
    names the console iterates over exactly when indexing by it returns
    a command, which is then the command bound to that name; every
    other name, the console's other attributes included, raises the
    no-such-command error. *)
Theorem registry_lookup :
  forall (cls : console_class) (nm : string) (w : World),
    (In nm (__iter__ cls) ->
       exists f, __getitem__ cls nm w = Ok f w
                 /\ command_name f = nm /\ In f (members cls))
    /\ (~ In nm (__iter__ cls) -> __getitem__ cls nm w = Raise (no_such_command nm) w).
Proof.
  intros cls nm w. split; [|apply getitem_unregistered].
  intros Hin. unfold __iter__ in Hin. apply in_map_iff in Hin as [f0 [Hname Hf0]].
  unfold __getitem__, getattr.
  destruct (find (fun c => (command_name c =? nm)%string) (members cls)) as [f|] eqn:E.
  - apply find_some in E as [Hf Hn]. apply String.eqb_eq in Hn. exists f. auto.
  - apply find_none with (x := f0) in E; [|exact Hf0].
    apply String.eqb_neq in E. contradiction.
Qed.

(** X13. The cluster console extends the plain one: every name the plain
    console resolves, the cluster console resolves to the same command;
    add, rm and reboot are commands of the cluster console only, and the
    plain console answers them with the no-such-command error. *)
Theorem cluster_console_extends :
  forall (nm : string) (w : World),
    (forall f, __getitem__ Neo4jConsole nm w = Ok f w ->
               __getitem__ Neo4jClusterConsole nm w = Ok f w)
    /\ (In nm ["add"; "rm"; "reboot"] ->
        __getitem__ Neo4jConsole nm w = Raise (no_such_command nm) w
        /\ exists f, __getitem__ Neo4jClusterConsole nm w = Ok f w).
Proof.
  intros nm w. split.
  - intros f H. unfold __getitem__, getattr in H.
    destruct (find (fun c => (command_name c =? nm)%string) (members Neo4jConsole))
      as [c|] eqn:E.
    + inversion H; subst c. apply find_some in E as [Hin Hn].
      apply String.eqb_eq in Hn. subst nm.
      simpl in Hin. repeat destruct Hin as [<- | Hin]; try reflexivity. contradiction.
    + destruct (existsb (String.eqb nm) other_attributes); discriminate.
  - simpl. intros [<- | [<- | [<- | []]]]; split; try reflexivity; eexists; reflexivity.
Qed.

(** ** help *)

Lemma help_loop (cls : console_class) (g : string -> command -> string) :
  forall (fs : list command) (w : World),
    (forall f, In f fs -> getattr cls (command_name f) = Some (AttrCommand f)) ->
    for_each (fun arg0 => f <- __getitem__ cls arg0 ;; echo (g arg0 f))
             (map command_name fs) w
    = Ok tt (emit (map (fun f => Echo false (g (command_name f) f)) fs) w).
Proof.
  induction fs as [|f fs IH]; intros w Hfs.
  - simpl. unfold ret. now rewrite emit_nil.
  - cbn [map for_each]. unfold bind at 1. unfold bind at 1.
    rewrite (getitem_command cls _ f) by (apply Hfs; now left).
    unfold echo. rewrite IH by (intros f0 H0; apply Hfs; now right).
    now rewrite log_emit, emit_emit.
Qed.

(** X14. [help] without a command (or with an empty one) prints the
    heading and then one line for every command of the console, each
    exactly once and in alphabetical order of its name: the name padded
    to the longest command name, and its short help cut to what is left
    of 73 columns. *)
Theorem help_lists_commands :
  forall (cls : console_class) (command : option string) (w : World),
    command = None \/ command = Some "" ->
    help lib cls command w
    = Ok tt (emit (Echo false "Commands:"
                   :: map (fun f => Echo false (help_line lib cls f)) (members cls)) w)
    /\ NoDup (map command_name (members cls))
    /\ Sorted string_le (map command_name (members cls)).
Proof.
  intros cls command w Hc. repeat apply conj.
  - assert (Hhelp : help lib cls command w
                    = (echo "Commands:" ;;;
                       for_each (fun arg0 =>
                                   f <- __getitem__ cls arg0 ;;
                                   echo ("  " ++ ljust (list_max (map String.length
                                                                   (__iter__ cls))) arg0
                                         ++ "   "
                                         ++ get_short_help_str lib f
                                              (73 - list_max (map String.length
                                                                  (__iter__ cls)))))
                                (sorted (__iter__ cls))) w)
      by (destruct Hc as [-> | ->]; reflexivity).
    rewrite Hhelp. unfold bind at 1. unfold echo at 1.
    replace (sorted (__iter__ cls)) with (map command_name (members cls))
      by (destruct cls; reflexivity).
    rewrite (help_loop cls
               (fun arg0 f => "  " ++ ljust (list_max (map String.length (__iter__ cls))) arg0
                              ++ "   "
                              ++ get_short_help_str lib f
                                   (73 - list_max (map String.length (__iter__ cls))))%string),
            log_emit, emit_emit; [reflexivity|].
    intros f Hf. destruct cls; simpl in Hf;
      repeat destruct Hf as [<- | Hf]; try reflexivity; contradiction.
  - destruct cls; simpl; repeat constructor; simpl; intuition discriminate.
  - destruct cls; simpl; repeat constructor.
Qed.

(** X15. [help] on a name: a name that is no command raises the
    no-such-command error (a parameter error, so the handler for
    [KeyError] in [help] never runs) and prints nothing; for a command,
    once the binder has accepted the empty argument list, [help] prints
    that command's help text. *)
Theorem help_on_command :
  forall (cls : console_class) (nm : string) (w : World),
    nm <> "" ->
    (~ In nm (__iter__ cls) ->
       help lib cls (Some nm) w = Raise (no_such_command nm) w)
    /\ (forall f p,
          getattr cls nm = Some (AttrCommand f) ->
          click_parse lib cmd_help [] = Parsed p ->
          help lib cls (Some nm) w = Ok tt (log (Echo false (get_help lib f nm)) w)).
Proof.
  intros cls nm w Hnm. destruct nm as [|c nm]; [congruence|]. split.
  - intros Hnot. unfold help, bind. now rewrite getitem_unregistered.
  - intros f p Hf Hp. unfold help, bind. rewrite (getitem_command cls _ f) by exact Hf.
    unfold make_context. rewrite Hp. reflexivity.
Qed.

(** ** invoke *)

(** X16. One invocation writes at most one entry to the error stream:
    exactly the formatted message when the guarded block raised a click
    exception, and nothing in every other case (the block returned,
    raised click's [Exit], or raised anything else). *)
Theorem invoke_writes_at_most_one_error :
  forall (cls : console_class) (argv : list string) (w : World),
    stderr_of (trace (world_of (invoke collab lib cls argv w)))
    = stderr_of (trace w)
      ++ match invoke_body collab lib cls argv w with
         | Raise e _ => if is_ClickException e then [format_message e] else []
         | Ok _ _ => []
         end.
Proof.
  intros cls argv w. destruct (quiet_invoke_body collab lib cls argv w) as [es [T S]].
  unfold invoke, try_except.
  destruct (invoke_body collab lib cls argv w) as [[] w1|e w1]; simpl in T.
  - simpl. now rewrite T, stderr_of_app, S.
  - unfold invoke_handler.
    destruct e; simpl; rewrite T, !stderr_of_app, S, ?app_nil_r; reflexivity.
Qed.

(** X17. When the binder answers a command line with the help text (the
    eager help option), [invoke] prints that text to standard output and
    returns: click's [Exit] is swallowed, the command's body does not
    run, and no collaborator is called. *)
Theorem invoke_shows_help :
  forall (cls : console_class) (arg0 : string) (rest : list string) (w : World)
         (f : command) (text : string),
    getattr cls arg0 = Some (AttrCommand f) ->
    click_parse lib f rest = ShowHelp text ->
    invoke collab lib cls (arg0 :: rest) w = Ok tt (log (Echo false text) w).
Proof.
  intros cls arg0 rest w f text Hf Hp. unfold invoke, try_except, invoke_body, bind.
  rewrite (getitem_command cls _ f) by exact Hf. unfold make_context. now rewrite Hp.
Qed.

(** ** run *)


(** X19. A line the tokenizer rejects (an unclosed quotation, a trailing
    escape) ends the loop with the tokenizer's [ValueError]: the line is
    not dispatched, [args] keeps its old value, and the lines after it
    are never read. *)
Theorem run_stops_at_tokenizer_error :
  forall (cls : console_class) (line : string) (rest : list string) (w : World)
         (e : exn),
    shlex_split line = inl e ->
    run collab lib cls (line :: rest) w
    = Raise e (world_of (prompt lib (Some line) w))
    /\ args (world_of (prompt lib (Some line) w)) = args w.
Proof.
  intros cls line rest w e H. split; [|reflexivity].
  apply run_propagates. unfold run_body. rewrite H.
  destruct line; [discriminate | reflexivity].
Qed.

(** ** ls *)

Lemma py_len_append (s1 s2 : string) :
  py_len (s1 ++ s2) = py_len s1 + py_len s2.
Proof.
  induction s1 as [|c s1 IH]; simpl; [reflexivity|].
  destruct (is_continuation c); now rewrite IH.
Qed.

Lemma ljust_py_len (width : nat) (s : string) :
  py_len (ljust width s) = Nat.max width (py_len s).
Proof.
  unfold ljust. rewrite py_len_append.
  assert (H : forall n, py_len (spaces n) = n)
    by (induction n; simpl; auto).
  rewrite H. lia.
Qed.

(** X20. The columns of a row of [ls] are padded, never cut, counting
    characters: a row has as many characters as its fields or their
    column widths (12, 12, 15, 12, 12), whichever is more, plus the
    debug port; so when the first five fields fit their columns the
    debug port starts at column 63, under its heading. *)
Theorem ls_row_width :
  forall (s : MachineSpec) (m : Machine),
    py_len (ls_row s m)
    = Nat.max 12 (py_len (fq_name s))
      + Nat.max 12 (py_len (short_id (container m)))
      + Nat.max 15 (py_len (config_get (config s) "dbms.mode" "SINGLE"))
      + Nat.max 12 (py_len (str_N (bolt_port s)))
      + Nat.max 12 (py_len (str_N (http_port s)))
      + py_len (str_N (port (debug_opts s)))
    /\ py_len ls_header = 63 + py_len "DEBUG PORT".
Proof.
  intros s m. split; [|reflexivity].
  unfold ls_row. rewrite !py_len_append, !ljust_py_len. lia.
Qed.

(** Padding counts characters: the two bytes of an accented letter are
    one column. *)
Example ljust_counts_characters :
  ljust 12 "é.grolt" = ("é.grolt" ++ spaces 5)%string
  /\ String.length "é.grolt" = 8 /\ py_len "é.grolt" = 7.
Proof. repeat split. Qed.

(** ** Tokenizing and dispatching *)

Lemma list_ascii_of_append (s1 s2 : string) :
  list_ascii_of_string (s1 ++ s2) = list_ascii_of_string s1 ++ list_ascii_of_string s2.
Proof. induction s1 as [|c s1 IH]; simpl; [reflexivity | now rewrite IH]. Qed.

Lemma append_add_char (tok : string) (c : ascii) (s : string) :
  (add_char tok c ++ s)%string = (tok ++ String c s)%string.
Proof. unfold add_char. induction tok as [|a tok IH]; simpl; [reflexivity | now rewrite IH]. Qed.

Lemma plain_char_inv (c : ascii) :
  plain_char c = true ->
  is_whitespace c = false /\ is_quote c = false /\ is_escape c = false.
Proof.
  unfold plain_char. rewrite negb_true_iff, !orb_false_iff. tauto.
Qed.

(** Inside a word, plain characters are added to the token. *)
Lemma read_plain (s : string) :
  forall (rest : list ascii) (tok : string) (acc : list string),
    forallb plain_char (list_ascii_of_string s) = true ->
    read_tokens (list_ascii_of_string s ++ rest) InWord tok false acc
    = read_tokens rest InWord (tok ++ s) false acc.
Proof.
  induction s as [|c s IH]; intros rest tok acc H.
  - simpl. replace (tok ++ "")%string with tok; [reflexivity|].
    induction tok as [|a tok IHt]; simpl; [reflexivity | now rewrite <- IHt].
  - simpl in H. apply andb_true_iff in H as [Hc Hs].
    destruct (plain_char_inv c Hc) as (Hw & Hq & He).
    cbn [list_ascii_of_string app read_tokens]. rewrite Hw, Hq, He.
    rewrite IH by exact Hs. now rewrite append_add_char.
Qed.

(** Between words, a plain word is read whole. *)
Lemma read_word (word : string) (rest : list ascii) (acc : list string) :
  plain_word word = true ->
  read_tokens (list_ascii_of_string word ++ rest) InWhitespace "" false acc
  = read_tokens rest InWord word false acc.
Proof.
  destruct word as [|c s]; [discriminate|]. unfold plain_word. intros H.
  simpl in H. apply andb_true_iff in H as [Hc Hs].
  destruct (plain_char_inv c Hc) as (Hw & Hq & He).
  cbn [list_ascii_of_string app read_tokens]. rewrite Hw, Hq, He.
  now rewrite read_plain.
Qed.

Lemma read_words (words : list string) :
  forall acc,
    words <> [] -> forallb plain_word words = true ->
    read_tokens (list_ascii_of_string (join " " words)) InWhitespace "" false acc
    = inr (acc ++ words).
Proof.
  induction words as [|word more IH]; intros acc Hne H; [congruence|].
  simpl in H. apply andb_true_iff in H as [Hword Hmore].
  assert (Hnonempty : (negb (word =? "") || false)%bool = true)
    by (destruct word; [discriminate | reflexivity]).
  destruct more as [|next more'].
  - cbn [join]. rewrite <- (app_nil_r (list_ascii_of_string word)).
    rewrite read_word by exact Hword. cbn [read_tokens]. now rewrite Hnonempty.
  - change (join " " (word :: next :: more'))
      with (word ++ " " ++ join " " (next :: more'))%string.
    rewrite list_ascii_of_append, read_word by exact Hword.
    cbn [append list_ascii_of_string read_tokens].
    change (is_whitespace " ") with true. cbn iota. rewrite Hnonempty.
    rewrite IH by (congruence || exact Hmore).
    now rewrite <- app_assoc.
Qed.

(** X21. A line of plain words (no whitespace, quote or backslash inside
    a word) separated by single spaces is split into exactly those
    words, and [run] stores them in [args] and invokes the first as the
    command with the rest as its arguments. *)
Theorem run_dispatches_plain_words :
  forall (cls : console_class) (words : list string) (w : World),
    words <> [] -> forallb plain_word words = true ->
    shlex_split (join " " words) = inr words
    /\ run_body collab lib cls (join " " words) w
       = invoke collab lib cls words (set_args words w).
Proof.
  intros cls words w Hne H.
  assert (Hsplit : shlex_split (join " " words) = inr words)
    by (unfold shlex_split; now rewrite read_words).
  split; [exact Hsplit|].
  unfold run_body. rewrite Hsplit.
  destruct (join " " words) eqn:Hj; [|reflexivity].
  exfalso. destruct words as [|word more]; [congruence|].
  simpl in H. apply andb_true_iff in H as [Hword _].
  destruct word; [discriminate|]. destruct more; discriminate.
Qed.

(** X22. [run] never returns: whatever is typed, and whatever the
    collaborators answer, the loop ends by an exception. *)
Theorem run_never_returns :
  forall (cls : console_class) (stdin : list string) (w w' : World) (a : unit),
    run collab lib cls stdin w <> Ok a w'.
Proof.
  intros cls stdin w w' a H.
  destruct (run_ends_by_exception collab lib cls stdin w) as [e [w1 E]]. congruence.
Qed.

End MoreCommands.

(** ** The further properties on the sample cluster *)

Lemma for_each_machine_stops_at_failure_witness :
  _for_each_machine (Some "b")
    (fun m => match m with
              | Some _ => echo "seen" ;;; raise (CollaboratorError "down")
              | None => raise AttributeError
              end) sample_world
  = Raise (CollaboratorError "down") (log (Echo false "seen") sample_world).
Proof.
  apply (for_each_machine_stops_at_failure (Some "b") _ sample_world [] []
           (Some (sample_machine "b" 17602)) _ sample_world).
  - intros [m|] w0 w' H; discriminate.
  - reflexivity.
  - reflexivity.
  - reflexivity.
Defined.




Lemma commands_fail_on_absent_machine_witness :
  ping calm reference_library (Some "c") sample_world = Raise AttributeError sample_world.
Proof.
  apply (commands_fail_on_absent_machine calm reference_library (Some "c") sample_world
           [] 2).
  reflexivity.
Defined.

Lemma pause_leaves_container_paused_witness :
  exists w',
    pause sleepless reference_library 2 (Some "a") sample_world
    = Raise (ValueError "sleep length must be non-negative") w'
    /\ trace w' = trace sample_world
                  ++ firstn 3 (pause_events reference_library 2 (sample_machine "a" 17601)).
Proof.
  apply (pause_leaves_container_paused sleepless reference_library 2 (Some "a")
           sample_world (sample_machine "a" 17601) []).
  - reflexivity.
  - intros h e'. simpl. discriminate.
  - intros h. reflexivity.
Defined.

Lemma rm_delegates_witness :
  rm calm reference_library "b" sample_world
  = Raise (not_found "'b'") (after_call calm (CRemove "b") sample_world).
Proof.
  apply (proj1 (proj2 (rm_delegates calm reference_library "b" sample_world)) false).
  reflexivity.
Defined.

Lemma reboot_delegates_witness :
  reboot calm reference_library "b" sample_world
  = Raise (not_found "'b'") (after_call calm (CReboot "b") sample_world).
Proof.
  apply (proj1 (proj2 (reboot_delegates calm reference_library "b" sample_world)) false).
  reflexivity.
Defined.

Lemma rt_without_routers_witness :
  rt routerless reference_library None sample_world
  = Raise IndexError (after_call routerless CRouters sample_world).
Proof.
  apply (rt_without_routers routerless reference_library None sample_world).
  reflexivity.
Defined.

Lemma rt_displays_routing_table_witness :
  exists w',
    rt calm reference_library (Some "mydb") sample_world = Ok tt w'
    /\ trace w'
       = trace sample_world
         ++ [ Called CRouters; Called (CConnect "bolt://localhost:17601");
              Echo false (refreshing reference_library (Some "mydb"));
              Called (CRefresh (Some "mydb")); Called CRunners;
              Called CGetRouterProfiles;
              Echo false ("Routers: " ++ join " " ["bolt://localhost:17601"]);
              Echo false ("Readers: " ++ join " " ["bolt://localhost:17602"]);
              Echo false ("Writers: " ++ join " " ["bolt://localhost:17601"]);
              Called CClose ].
Proof.
  apply (rt_displays_routing_table calm reference_library (Some "mydb") sample_world
           "bolt://localhost:17601" []);
    try reflexivity; intros; simpl; discriminate.
Defined.

Lemma env_prints_sorted_items_witness :
  env calm reference_library sample_world
  = Ok tt (emit [Echo false "NEO4J_AUTH='neo4j:password'"]
             (after_call calm CEnv sample_world)).
Proof.
  apply (env_prints_sorted_items calm reference_library
           [("NEO4J_AUTH", "neo4j:password")] sample_world).
  reflexivity.
Defined.

Lemma registry_lookup_witness :
  (exists f, __getitem__ Neo4jConsole "ls" sample_world = Ok f sample_world
             /\ command_name f = "ls" /\ In f (members Neo4jConsole))
  /\ __getitem__ Neo4jConsole "run" sample_world
     = Raise (no_such_command "run") sample_world.
Proof.
  split.
  - apply (registry_lookup Neo4jConsole "ls" sample_world). simpl. tauto.
  - apply (registry_lookup Neo4jConsole "run" sample_world).
    simpl. intuition discriminate.
Defined.

Lemma cluster_console_extends_witness :
  __getitem__ Neo4jClusterConsole "ping" sample_world = Ok cmd_ping sample_world
  /\ __getitem__ Neo4jConsole "rm" sample_world
     = Raise (no_such_command "rm") sample_world.
Proof.
  split.
  - apply (cluster_console_extends "ping" sample_world). reflexivity.
  - apply (cluster_console_extends "rm" sample_world). simpl. tauto.
Defined.

Lemma help_lists_commands_witness :
  help reference_library Neo4jConsole None sample_world
  = Ok tt (emit (Echo false "Commands:"
                 :: map (fun f => Echo false (help_line reference_library Neo4jConsole f))
                        (members Neo4jConsole)) sample_world).
Proof.
  apply (help_lists_commands reference_library Neo4jConsole None sample_world).
  now left.
Defined.

Lemma help_on_command_witness :
  help reference_library Neo4jConsole (Some "nope") sample_world
  = Raise (no_such_command "nope") sample_world
  /\ help reference_library Neo4jConsole (Some "ls") sample_world
     = Ok tt (log (Echo false "Usage: ls") sample_world).
Proof.
  split.
  - apply (help_on_command reference_library Neo4jConsole "nope" sample_world).
    + discriminate.
    + simpl. intuition discriminate.
  - apply (proj2 (help_on_command reference_library Neo4jConsole "ls" sample_world
                    ltac:(discriminate)) cmd_ls None); reflexivity.
Defined.

Lemma invoke_shows_help_witness :
  invoke calm reference_library Neo4jConsole ["ls"; "--help"] sample_world
  = Ok tt (log (Echo false "Usage: ls") sample_world).
Proof.
  apply (invoke_shows_help calm reference_library Neo4jConsole "ls" ["--help"]
           sample_world cmd_ls); reflexivity.
Defined.


Lemma run_stops_at_tokenizer_error_witness :
  run calm reference_library Neo4jConsole ["ping 'a"; "ls"] sample_world
  = Raise (ValueError "No closing quotation")
          (world_of (prompt reference_library (Some "ping 'a") sample_world))
  /\ args (world_of (prompt reference_library (Some "ping 'a") sample_world))
     = args sample_world.
Proof.
  apply (run_stops_at_tokenizer_error calm reference_library Neo4jConsole "ping 'a"
           ["ls"] sample_world).
  reflexivity.
Defined.

Lemma run_dispatches_plain_words_witness :
  shlex_split (join " " ["pause"; "2.0"; "a"]) = inr ["pause"; "2.0"; "a"]
  /\ run_body calm reference_library Neo4jConsole (join " " ["pause"; "2.0"; "a"])
       sample_world
     = invoke calm reference_library Neo4jConsole ["pause"; "2.0"; "a"]
         (set_args ["pause"; "2.0"; "a"] sample_world).
Proof.
  apply (run_dispatches_plain_words calm reference_library Neo4jConsole
           ["pause"; "2.0"; "a"] sample_world).
  - discriminate.
  - reflexivity.
Defined.
